(** * Verification of the release helper scripts

    [scripts/version_bump.py] keeps the version strings of several
    configuration files synchronised; [updater-test/server.py] serves a
    directory over HTTP with caching disabled.  Both are embedded below as
    Rocq functions, data as the Python code has it: a [str] is a sequence
    of Unicode code points, a parsed JSON document is a tree whose objects
    are insertion-ordered dictionaries, the files under the repository
    root form a store from paths to text, and exceptions are an explicit
    result. *)

From Stdlib Require Import List NArith ZArith Lia Bool String Ascii FunInd.
From Stdlib Require DecimalN DecimalFacts.
Import ListNotations.

Local Open Scope N_scope.

(** ** Python strings *)

(** A Python [str] is a sequence of code points.  A code point is below
    [0x110000]; the surrogates [0xD800..0xDFFF] are code points a [str]
    can hold (the JSON decoder produces them from escapes) although no
    strict text decoder yields them. *)
Definition char := N.
Definition str := list char.

(** String literals of the source, written as Rocq strings. *)
Definition py (s : string) : str := map N_of_ascii (list_ascii_of_string s).

Definition QUOTE : char := 0x22.      (* the double quote *)
Definition BACKSLASH : char := 0x5C.
Definition LF : char := 0x0A.
Definition CR : char := 0x0D.
Definition SPACE : char := 0x20.

Definition str_eqb (a b : str) : bool :=
  if list_eq_dec N.eq_dec a b then true else false.

(** [c.isspace()], which is also the regular-expression class [\s] on
    [str] patterns (CPython's [_PyUnicode_IsWhitespace]). *)
Definition isspace (c : char) : bool :=
  ((0x09 <=? c) && (c <=? 0x0D)) || ((0x1C <=? c) && (c <=? 0x20))
  || (c =? 0x85) || (c =? 0xA0) || (c =? 0x1680)
  || ((0x2000 <=? c) && (c <=? 0x200A))
  || (c =? 0x2028) || (c =? 0x2029) || (c =? 0x202F) || (c =? 0x205F)
  || (c =? 0x3000).

(** The line boundaries of [str.splitlines]
    (CPython's [_PyUnicode_IsLinebreak]). *)
Definition islinebreak (c : char) : bool :=
  ((0x0A <=? c) && (c <=? 0x0D)) || ((0x1C <=? c) && (c <=? 0x1E))
  || (c =? 0x85) || (c =? 0x2028) || (c =? 0x2029).

(** [s.lstrip()], [s.rstrip()] and [s.strip()] with no argument. *)
Fixpoint lstrip (s : str) : str :=
  match s with
  | c :: r => if isspace c then lstrip r else s
  | [] => []
  end.

(** The white space [lstrip] removes. *)
Fixpoint leading_space (s : str) : str :=
  match s with
  | c :: r => if isspace c then c :: leading_space r else []
  | [] => []
  end.

Definition rstrip (s : str) : str := rev (lstrip (rev s)).

Definition strip (s : str) : str := rstrip (lstrip s).

(** [s.startswith(prefix)]. *)
Fixpoint startswith (s prefix : str) {struct prefix} : bool :=
  match prefix with
  | [] => true
  | p :: prefix' =>
      match s with
      | c :: s' => (c =? p) && startswith s' prefix'
      | [] => false
      end
  end.

(** [sep.join(parts)]. *)
Fixpoint join (sep : str) (parts : list str) : str :=
  match parts with
  | [] => []
  | [p] => p
  | p :: rest => p ++ sep ++ join sep rest
  end.

(** [" " * n]. *)
Definition spaces (n : nat) : str := repeat SPACE n.

(** [s.splitlines()]: the lines of [s] without their line boundaries; a
    carriage return directly followed by a line feed is one boundary, and
    a boundary at the very end opens no further line.  [cur] holds the
    line being read, reversed. *)
Fixpoint splitlines_from (cur : str) (s : str) : list str :=
  match s with
  | [] => match cur with [] => [] | _ => [rev cur] end
  | c :: r =>
      if islinebreak c then
        rev cur ::
          (if c =? CR then
             match r with
             | c' :: r' =>
                 if c' =? LF then splitlines_from [] r'
                 else splitlines_from [] r
             | [] => splitlines_from [] r
             end
           else splitlines_from [] r)
      else splitlines_from (c :: cur) r
  end.

Definition splitlines (s : str) : list str := splitlines_from [] s.

(** Iterating over a file opened in text mode ([for line in f]): the
    lines of the text, each with its terminating line feed, the last one
    possibly without. *)
Fixpoint readlines_from (cur : str) (s : str) : list str :=
  match s with
  | [] => match cur with [] => [] | _ => [rev cur] end
  | c :: r =>
      if c =? LF then rev (c :: cur) :: readlines_from [] r
      else readlines_from (c :: cur) r
  end.

Definition readlines (s : str) : list str := readlines_from [] s.

(** Universal newlines, applied by every read in text mode: [\r\n] and a
    lone [\r] both become [\n]. *)
Fixpoint universal_newlines (s : str) : str :=
  match s with
  | [] => []
  | c :: r =>
      if c =? CR then
        LF :: match r with
              | c' :: r' => if c' =? LF then universal_newlines r'
                            else universal_newlines r
              | [] => []
              end
      else c :: universal_newlines r
  end.

(** ** JSON documents *)

(** What [json.loads] builds: [None], [bool], [int], [str], [list] and
    [dict].  A [dict] keeps its keys in insertion order and holds each
    key once; the keys of a decoded document are all [str].  A Python
    [float] has no counterpart here: decoding a document that holds one
    is reported as [HasFloat] (see [json_loads]). *)
#[warnings="-register-all"]
Inductive json : Type :=
| JNull
| JBool (b : bool)
| JInt (n : Z)
| JStr (s : str)
| JList (items : list json)
| JDict (members : list (str * json)).

Definition dict := list (str * json).

(** [key in d] and [d.get(key)]. *)
Fixpoint dict_get (key : str) (d : dict) : option json :=
  match d with
  | [] => None
  | (k, v) :: rest => if str_eqb k key then Some v else dict_get key rest
  end.

Definition dict_contains (key : str) (d : dict) : bool :=
  match dict_get key d with Some _ => true | None => false end.

(** [d[key] = value]: a key already present keeps its place and takes
    the new value, a new key goes last. *)
Fixpoint dict_set (key : str) (value : json) (d : dict) : dict :=
  match d with
  | [] => [(key, value)]
  | (k, v) :: rest =>
      if str_eqb k key then (k, value) :: rest
      else (k, v) :: dict_set key value rest
  end.

(** [dict(pairs)]: later pairs overwrite earlier ones. *)
Definition dict_of_pairs (pairs : list (str * json)) : dict :=
  fold_left (fun d kv => dict_set (fst kv) (snd kv) d) pairs [].

(** *** Encoding: [json.dumps(data, indent=2)] *)

Definition hexdigit (d : N) : char :=
  if d <? 10 then 0x30 + d else 0x57 + d.

(** ['{0:04x}'.format(n)] for [n < 0x10000]. *)
Definition hex4 (n : N) : str :=
  [hexdigit (n / 0x1000 mod 16); hexdigit (n / 0x100 mod 16);
   hexdigit (n / 0x10 mod 16); hexdigit (n mod 16)].

Definition uXXXX (n : N) : str := BACKSLASH :: 0x75 :: hex4 n.

(** The replacement [encode_basestring_ascii] makes for one character:
    printable ASCII other than the quote and the backslash stays, the
    short escapes come from [ESCAPE_DCT], anything else becomes
    [\uXXXX], as a surrogate pair from [0x10000] on. *)
Definition escape_char (c : char) : str :=
  if c =? QUOTE then [BACKSLASH; QUOTE]
  else if c =? BACKSLASH then [BACKSLASH; BACKSLASH]
  else if (0x20 <=? c) && (c <=? 0x7E) then [c]
  else if c =? 0x08 then [BACKSLASH; 0x62]
  else if c =? 0x0C then [BACKSLASH; 0x66]
  else if c =? 0x0A then [BACKSLASH; 0x6E]
  else if c =? 0x0D then [BACKSLASH; 0x72]
  else if c =? 0x09 then [BACKSLASH; 0x74]
  else if c <? 0x10000 then uXXXX c
  else
    let n := c - 0x10000 in
    let s1 := N.lor 0xD800 (N.land (N.shiftr n 10) 0x3FF) in
    let s2 := N.lor 0xDC00 (N.land n 0x3FF) in
    uXXXX s1 ++ uXXXX s2.

Definition encode_basestring_ascii (s : str) : str :=
  QUOTE :: flat_map escape_char s ++ [QUOTE].

(** [int.__repr__]: the decimal digits, with a minus sign below zero. *)
Fixpoint digits_of_uint (d : Decimal.uint) : str :=
  match d with
  | Decimal.Nil => []
  | Decimal.D0 r => 0x30 :: digits_of_uint r
  | Decimal.D1 r => 0x31 :: digits_of_uint r
  | Decimal.D2 r => 0x32 :: digits_of_uint r
  | Decimal.D3 r => 0x33 :: digits_of_uint r
  | Decimal.D4 r => 0x34 :: digits_of_uint r
  | Decimal.D5 r => 0x35 :: digits_of_uint r
  | Decimal.D6 r => 0x36 :: digits_of_uint r
  | Decimal.D7 r => 0x37 :: digits_of_uint r
  | Decimal.D8 r => 0x38 :: digits_of_uint r
  | Decimal.D9 r => 0x39 :: digits_of_uint r
  end.

Definition int_repr (n : Z) : str :=
  match n with
  | Zneg p => 0x2D :: digits_of_uint (N.to_uint (Npos p))
  | _ => digits_of_uint (N.to_uint (Z.to_N n))
  end.

(** [_iterencode] of [json.encoder].  [indent] is the keyword argument
    of [json.dumps]: when it is given, the items of a container go on
    lines of their own, [_indent * _current_indent_level] spaces deep,
    and the item separator is a bare comma; without it everything stays
    on one line and the item separator is a comma and a space.  The key
    separator is a colon and a space either way.  [level] is
    [_current_indent_level]. *)
Definition newline_indent (indent : option nat) (level : nat) : str :=
  match indent with
  | Some width => LF :: spaces (width * level)
  | None => []
  end.

Definition item_separator (indent : option nat) : str :=
  match indent with
  | Some _ => py ","
  | None => py ", "
  end.

Fixpoint iterencode (indent : option nat) (level : nat) (o : json) : str :=
  match o with
  | JNull => py "null"
  | JBool true => py "true"
  | JBool false => py "false"
  | JInt n => int_repr n
  | JStr s => encode_basestring_ascii s
  | JList [] => py "[]"
  | JList items =>
      py "[" ++ newline_indent indent (S level)
        ++ join (item_separator indent ++ newline_indent indent (S level))
             (map (iterencode indent (S level)) items)
        ++ newline_indent indent level ++ py "]"
  | JDict [] => py "{}"
  | JDict members =>
      py "{" ++ newline_indent indent (S level)
        ++ join (item_separator indent ++ newline_indent indent (S level))
             (map (fun kv => encode_basestring_ascii (fst kv) ++ py ": "
                             ++ iterencode indent (S level) (snd kv))
                members)
        ++ newline_indent indent level ++ py "}"
  end.

(** [json.dumps(o)] and [json.dumps(o, indent=n)]. *)
Definition json_dumps (indent : option nat) (o : json) : str :=
  iterencode indent 0 o.

(** *** Decoding: [json.loads(text)] *)

(** Outcome of a scanning step: a value and the text after it, a
    [JSONDecodeError], a number that Python would decode into a [float],
    or the exhaustion of the recursion allowance (which [json_loads]
    sets high enough never to meet, see [json_loads_total]). *)
Inductive scan (A : Type) : Type :=
| Scanned (a : A) (rest : str)
| Malformed
| FloatNumber
| OutOfFuel.
Arguments Scanned {A} a rest.
Arguments Malformed {A}.
Arguments FloatNumber {A}.
Arguments OutOfFuel {A}.

(** [WHITESPACE.match(s, end).end()] with [WHITESPACE = [ \t\n\r]*]. *)
Definition is_json_ws (c : char) : bool :=
  (c =? 0x20) || (c =? 0x09) || (c =? 0x0A) || (c =? 0x0D).

Fixpoint skip_ws (s : str) : str :=
  match s with
  | c :: r => if is_json_ws c then skip_ws r else s
  | [] => []
  end.

Definition is_digit (c : char) : bool := (0x30 <=? c) && (c <=? 0x39).

Definition hexval (c : char) : option N :=
  if (0x30 <=? c) && (c <=? 0x39) then Some (c - 0x30)
  else if (0x61 <=? c) && (c <=? 0x66) then Some (c - 0x57)
  else if (0x41 <=? c) && (c <=? 0x46) then Some (c - 0x37)
  else None.

(** [_decode_uXXXX]: the value of four hexadecimal digits. *)
Definition decode_uXXXX (h1 h2 h3 h4 : char) : option N :=
  match hexval h1, hexval h2, hexval h3, hexval h4 with
  | Some a, Some b, Some c, Some d => Some (((a * 16 + b) * 16 + c) * 16 + d)
  | _, _, _, _ => None
  end.

Definition is_high_surrogate (c : char) : bool := (0xD800 <=? c) && (c <=? 0xDBFF).
Definition is_low_surrogate (c : char) : bool := (0xDC00 <=? c) && (c <=? 0xDFFF).

Definition join_surrogates (hi lo : char) : char :=
  0x10000 + N.lor (N.shiftl (hi - 0xD800) 10) (lo - 0xDC00).

(** The [BACKSLASH] table of [json.decoder]. *)
Definition unescape (e : char) : option char :=
  if e =? QUOTE then Some QUOTE
  else if e =? BACKSLASH then Some BACKSLASH
  else if e =? 0x2F then Some 0x2F
  else if e =? 0x62 then Some 0x08
  else if e =? 0x66 then Some 0x0C
  else if e =? 0x6E then Some 0x0A
  else if e =? 0x72 then Some 0x0D
  else if e =? 0x74 then Some 0x09
  else None.

Definition scan_cons {A} (a : A) (r : scan (list A)) : scan (list A) :=
  match r with
  | Scanned t rest => Scanned (a :: t) rest
  | Malformed => Malformed
  | FloatNumber => FloatNumber
  | OutOfFuel => OutOfFuel
  end.

(** [scanstring(s, end, strict=True)], entered just after the opening
    quote: characters up to the closing quote, a control character being
    an error, a backslash starting an escape, and a [\uXXXX] high
    surrogate directly followed by a [\uXXXX] low surrogate read as one
    character. *)
Fixpoint scanstring (s : str) : scan str :=
  match s with
  | [] => Malformed
  | c :: r =>
      if c =? QUOTE then Scanned [] r
      else if c =? BACKSLASH then
        match r with
        | [] => Malformed
        | e :: r1 =>
            if e =? 0x75 then
              match r1 with
              | h1 :: h2 :: h3 :: h4 :: r2 =>
                  match decode_uXXXX h1 h2 h3 h4 with
                  | None => Malformed
                  | Some uni =>
                      match r2 with
                      | b :: u :: r3 =>
                          if is_high_surrogate uni && (b =? BACKSLASH) && (u =? 0x75) then
                            match r3 with
                            | g1 :: g2 :: g3 :: g4 :: r4 =>
                                match decode_uXXXX g1 g2 g3 g4 with
                                | None => Malformed
                                | Some uni2 =>
                                    if is_low_surrogate uni2
                                    then scan_cons (join_surrogates uni uni2) (scanstring r4)
                                    else scan_cons uni (scanstring r2)
                                end
                            | _ => Malformed
                            end
                          else scan_cons uni (scanstring r2)
                      | _ => scan_cons uni (scanstring r2)
                      end
                  end
              | _ => Malformed
              end
            else
              match unescape e with
              | Some c' => scan_cons c' (scanstring r1)
              | None => Malformed
              end
        end
      else if c <? 0x20 then Malformed
      else scan_cons c (scanstring r)
  end.

(** Induction following the cases of [scanstring]. *)
Functional Scheme scanstring_ind := Induction for scanstring Sort Prop.

(** The digits matched by [[0-9]*] and the text after them. *)
Fixpoint span_digits (s : str) : str * str :=
  match s with
  | c :: r => if is_digit c then let (ds, rest) := span_digits r in (c :: ds, rest)
              else ([], s)
  | [] => ([], [])
  end.

(** [int(text)] on decimal digits. *)
Fixpoint uint_of_digits (ds : str) : Decimal.uint :=
  match ds with
  | [] => Decimal.Nil
  | c :: r =>
      let t := uint_of_digits r in
      match c - 0x30 with
      | 0 => Decimal.D0 t | 1 => Decimal.D1 t | 2 => Decimal.D2 t
      | 3 => Decimal.D3 t | 4 => Decimal.D4 t | 5 => Decimal.D5 t
      | 6 => Decimal.D6 t | 7 => Decimal.D7 t | 8 => Decimal.D8 t
      | _ => Decimal.D9 t
      end
  end.

Definition int_of_digits (negative : bool) (ds : str) : Z :=
  let n := Z.of_N (N.of_uint (uint_of_digits ds)) in
  if negative then (- n)%Z else n.

(** Whether [(\.[0-9]+)?([eE][-+]?[0-9]+)?] matches something at the
    start of [s], which makes the number a [float]. *)
Definition has_frac_or_exp (s : str) : bool :=
  match s with
  | c :: d :: r =>
      if c =? 0x2E then is_digit d
      else if (c =? 0x65) || (c =? 0x45) then
        if is_digit d then true
        else if (d =? 0x2B) || (d =? 0x2D) then
          match r with d' :: _ => is_digit d' | [] => false end
        else false
      else false
  | _ => false
  end.

(** [NUMBER_RE.match]: an optional minus sign, then either a single
    zero or a non-zero digit and any number of digits; an optional
    fraction and exponent after that make the number a [float]. *)
Definition match_number (s : str) : scan json :=
  let negative := match s with c :: _ => c =? 0x2D | [] => false end in
  let s1 := if negative then tl s else s in
  match s1 with
  | [] => Malformed
  | d :: r =>
      let '(ds, rest) :=
        if d =? 0x30 then ([d], r)
        else if is_digit d then span_digits s1
        else ([], s1) in
      match ds with
      | [] => Malformed
      | _ => if has_frac_or_exp rest then FloatNumber
             else Scanned (JInt (int_of_digits negative ds)) rest
      end
  end.

(** The scalar cases of [_scan_once]: the three literals, numbers, and
    the constants [NaN], [Infinity], [-Infinity], which are floats. *)
Definition scan_scalar (s : str) : scan json :=
  if startswith s (py "null") then Scanned JNull (skipn 4 s)
  else if startswith s (py "true") then Scanned (JBool true) (skipn 4 s)
  else if startswith s (py "false") then Scanned (JBool false) (skipn 5 s)
  else
    match match_number s with
    | Malformed =>
        if startswith s (py "NaN") || startswith s (py "Infinity")
           || startswith s (py "-Infinity")
        then FloatNumber else Malformed
    | r => r
    end.

(** Sequencing of scanning steps. *)
Definition scan_bind {A B} (r : scan A) (k : A -> str -> scan B) : scan B :=
  match r with
  | Scanned a rest => k a rest
  | Malformed => Malformed
  | FloatNumber => FloatNumber
  | OutOfFuel => OutOfFuel
  end.

Definition scan_map {A B} (f : A -> B) (r : scan A) : scan B :=
  scan_bind r (fun a rest => Scanned (f a) rest).

(** [_scan_once], [JSONArray] and [JSONObject].  [scan_once] reads one
    value; [scan_items] is the loop of [JSONArray], entered at the first
    element; [scan_members] is the loop of [JSONObject], entered just
    after the opening quote of a key.  Each call into a nested value
    spends one unit of [fuel]. *)
Fixpoint scan_once (fuel : nat) (s : str) : scan json :=
  match fuel with
  | O => OutOfFuel
  | S fuel' =>
      match s with
      | [] => Malformed
      | c :: r =>
          if c =? QUOTE then scan_map JStr (scanstring r)
          else if c =? 0x7B then
            match skip_ws r with
            | c1 :: r1 =>
                if c1 =? 0x7D then Scanned (JDict []) r1
                else if c1 =? QUOTE then
                  scan_map (fun pairs => JDict (dict_of_pairs pairs))
                    (scan_members fuel' r1)
                else Malformed
            | [] => Malformed
            end
          else if c =? 0x5B then
            match skip_ws r with
            | c1 :: r1 =>
                if c1 =? 0x5D then Scanned (JList []) r1
                else scan_map JList (scan_items fuel' (c1 :: r1))
            | [] => Malformed
            end
          else scan_scalar s
      end
  end

with scan_items (fuel : nat) (s : str) : scan (list json) :=
  match fuel with
  | O => OutOfFuel
  | S fuel' =>
      scan_bind (scan_once fuel' s) (fun value rest =>
        match skip_ws rest with
        | c :: r =>
            if c =? 0x5D then Scanned [value] r
            else if c =? 0x2C then scan_cons value (scan_items fuel' (skip_ws r))
            else Malformed
        | [] => Malformed
        end)
  end

with scan_members (fuel : nat) (s : str) : scan (list (str * json)) :=
  match fuel with
  | O => OutOfFuel
  | S fuel' =>
      scan_bind (scanstring s) (fun key rest =>
        match skip_ws rest with
        | c :: r =>
            if c =? 0x3A then
              scan_bind (scan_once fuel' (skip_ws r)) (fun value rest1 =>
                match skip_ws rest1 with
                | c1 :: r1 =>
                    if c1 =? 0x7D then Scanned [(key, value)] r1
                    else if c1 =? 0x2C then
                      match skip_ws r1 with
                      | c2 :: r2 =>
                          if c2 =? QUOTE
                          then scan_cons (key, value) (scan_members fuel' r2)
                          else Malformed
                      | [] => Malformed
                      end
                    else Malformed
                | [] => Malformed
                end)
            else Malformed
        | [] => Malformed
        end)
  end.

(** What [json.loads] does with a text: a document, a
    [JSONDecodeError], or a document that holds a [float]. *)
Inductive decoded : Type :=
| Document (data : json)
| DecodeError
| HasFloat.

(** [json.loads(text)]: no byte-order mark, leading white space, one
    value, and nothing but white space after it. *)
Definition json_loads (text : str) : decoded :=
  if startswith text [0xFEFF] then DecodeError
  else
    match scan_once (2 * List.length text + 2) (skip_ws text) with
    | Scanned data rest =>
        match skip_ws rest with
        | [] => Document data
        | _ :: _ => DecodeError
        end
    | Malformed => DecodeError
    | FloatNumber => HasFloat
    | OutOfFuel => DecodeError
    end.

(** ** Regular expressions *)

(** The fragment of [re] the script uses: literal characters, character
    classes, sequence, repetition and the anchors [^] and [$]. *)
Inductive regex : Type :=
| Fail                                (* matches nothing *)
| Eps                                 (* the empty string *)
| Class (p : char -> bool)            (* one character of a class *)
| Seq (a b : regex)
| Alt (a b : regex)
| Star (a : regex)
| Bol                                 (* ^ *)
| Eol.                                (* $ *)

Definition Lit (c : char) : regex := Class (N.eqb c).

Fixpoint Word (s : str) : regex :=
  match s with
  | [] => Eps
  | c :: r => Seq (Lit c) (Word r)
  end.

(** Whether [r] matches the empty string at a position where [^] holds
    iff [bol] and [$] holds iff [eol]. *)
Fixpoint nullable (bol eol : bool) (r : regex) : bool :=
  match r with
  | Fail => false
  | Eps => true
  | Class _ => false
  | Seq a b => nullable bol eol a && nullable bol eol b
  | Alt a b => nullable bol eol a || nullable bol eol b
  | Star _ => true
  | Bol => bol
  | Eol => eol
  end.

(** What is left of [r] once it has read [c] at such a position. *)
Fixpoint deriv (bol eol : bool) (c : char) (r : regex) : regex :=
  match r with
  | Fail | Eps | Bol | Eol => Fail
  | Class p => if p c then Eps else Fail
  | Seq a b =>
      if nullable bol eol a
      then Alt (Seq (deriv bol eol c a) b) (deriv bol eol c b)
      else Seq (deriv bol eol c a) b
  | Alt a b => Alt (deriv bol eol c a) (deriv bol eol c b)
  | Star a => Seq (deriv bol eol c a) (Star a)
  end.

(** Without [re.MULTILINE], [$] holds at the end of the string and just
    before a line feed that ends it. *)
Definition at_eol (rest : str) : bool :=
  match rest with
  | [] => true
  | [c] => c =? LF
  | _ => false
  end.

(** Whether [r] matches some prefix of [s]; [bol] says whether [s]
    starts the subject string. *)
Fixpoint match_from (bol : bool) (r : regex) (s : str) : bool :=
  nullable bol (at_eol s) r
  || match s with
     | [] => false
     | c :: s' => match_from false (deriv bol (at_eol s) c r) s'
     end.

(** [pattern.match(s) is not None]. *)
Definition re_match (r : regex) (s : str) : bool := match_from true r s.

(** What it means for [r] to match: [matches r before w after] says
    that [r] matches the part [w] of the subject string
    [before ++ w ++ after]. *)
Inductive matches : regex -> str -> str -> str -> Prop :=
| MEps before after : matches Eps before [] after
| MClass p c before after :
    p c = true -> matches (Class p) before [c] after
| MSeq a b before w1 w2 after :
    matches a before w1 (w2 ++ after) ->
    matches b (before ++ w1) w2 after ->
    matches (Seq a b) before (w1 ++ w2) after
| MAltL a b before w after :
    matches a before w after -> matches (Alt a b) before w after
| MAltR a b before w after :
    matches b before w after -> matches (Alt a b) before w after
| MStarNil a before after : matches (Star a) before [] after
| MStarCons a before w1 w2 after :
    matches a before w1 (w2 ++ after) ->
    matches (Star a) (before ++ w1) w2 after ->
    matches (Star a) before (w1 ++ w2) after
| MBol after : matches Bol [] [] after
| MEol before after : at_eol after = true -> matches Eol before [] after.

Definition is_nil {A} (l : list A) : bool :=
  match l with [] => true | _ :: _ => false end.

(** ** Files, operator input and exceptions *)

(** A path below the repository root, as its components. *)
Definition path := list string.

Definition path_eqb (p q : path) : bool :=
  if list_eq_dec string_dec p q then true else false.

Definition joinpath (p : path) (name : string) : path := p ++ [name].
Infix "//" := joinpath (at level 40, left associativity).

(** A piece of a formatted message. *)
Inductive fragment : Type :=
| Text (s : string)
| Shown (p : path).

Inductive exn : Type :=
| SystemExit (message : list fragment)
| EOFError
| FileNotFoundError (p : path)
| JSONDecodeError
| TypeError
| AttributeError.

(** How a call ends: with a value, with an exception, or outside what is
    modelled (a JSON document that holds a [float]). *)
Inductive result (A : Type) : Type :=
| Ok (a : A)
| Raise (e : exn)
| Unmodelled.
Arguments Ok {A} a.
Arguments Raise {A} e.
Arguments Unmodelled {A}.

(** The world the script runs in: the text of each file below the
    repository root, and the lines the operator is going to type.  What
    the script prints is left out. *)
Record world : Type := World {
  files : path -> option str;
  stdin : list str
}.

Definition M (A : Type) : Type := world -> world * result A.

Definition ret {A} (a : A) : M A := fun w => (w, Ok a).

Definition raise {A} (e : exn) : M A := fun w => (w, Raise e).

Definition bind {A B} (m : M A) (k : A -> M B) : M B :=
  fun w =>
    match m w with
    | (w', Ok a) => k a w'
    | (w', Raise e) => (w', Raise e)
    | (w', Unmodelled) => (w', Unmodelled)
    end.

Notation "x <- m ;; k" := (bind m (fun x => k))
  (at level 61, m at next level, right associativity).
Notation "m ;;; k" := (bind m (fun _ => k))
  (at level 61, right associativity).

(** [path.read_text()] and iteration over [path.open()]: text mode, so
    with universal newlines. *)
Definition read_text (p : path) : M str :=
  fun w =>
    match files w p with
    | Some text => (w, Ok (universal_newlines text))
    | None => (w, Raise (FileNotFoundError p))
    end.

(** [path.write_text(data)]; line feeds are written as they are. *)
Definition write_text (p : path) (data : str) : M unit :=
  fun w =>
    (World (fun q => if path_eqb p q then Some data else files w q) (stdin w),
     Ok tt).

(** [input(message)]: the next line typed, without its line feed. *)
Definition input : M str :=
  fun w =>
    match stdin w with
    | line :: rest => (World (files w) rest, Ok line)
    | [] => (w, Raise EOFError)
    end.

Definition loads (text : str) : M json :=
  match json_loads text with
  | Document data => ret data
  | DecodeError => raise JSONDecodeError
  | HasFloat => fun w => (w, Unmodelled)
  end.

(** ** scripts/version_bump.py *)

Definition REPO_ROOT : path := [].

Definition CARGO_TOML : path := REPO_ROOT // "src-tauri" // "Cargo.toml".
Definition RELEASE_WORKFLOW : path :=
  REPO_ROOT // ".github" // "workflows" // "release.yml".


Definition prompt : M str :=
  line <- input ;;
  let value := strip line in
  match value with
  | [] => raise (SystemExit [Text "Input cannot be empty."])
  | _ :: _ => ret value
  end.

(** [data[key] = value] on a decoded document: only a [dict] takes a
    string key. *)
Definition setitem (data : json) (key : str) (value : json) : M json :=
  match data with
  | JDict d => ret (JDict (dict_set key value d))
  | _ => raise TypeError
  end.

(** Lines 31 to 35 of the script.  [packages] and [root_package] are the
    very objects held inside [data], so the assignment to
    the [version] key of [root_package] changes [data]; the keys on the way keep
    their places. *)
Definition set_root_package_version (d : dict) (version : str) : dict :=
  match dict_get (py "packages") d with
  | Some (JDict packages) =>
      if dict_contains [] packages then
        match dict_get [] packages with
        | Some (JDict root_package) =>
            dict_set (py "packages")
              (JDict (dict_set []
                        (JDict (dict_set (py "version") (JStr version) root_package))
                        packages))
              d
        | _ => d
        end
      else d
  | _ => d
  end.

Definition update_json_version (p : path) (version : str) : M unit :=
  text <- read_text p ;;
  data <- loads text ;;
  data <- setitem data (py "version") (JStr version) ;;
  let data :=
    match data with
    | JDict d => JDict (set_root_package_version d version)
    | _ => data
    end in
  write_text p (json_dumps (Some 2%nat) data ++ [LF]).


(** The pattern compiled by the script, [^version\s*=\s*Q[^Q]*Q\s*$]
    with the double quote written [Q]. *)
Definition version_pattern : regex :=
  Seq Bol
    (Seq (Word (py "version"))
       (Seq (Star (Class isspace))
          (Seq (Lit 0x3D)
             (Seq (Star (Class isspace))
                (Seq (Lit QUOTE)
                   (Seq (Star (Class (fun c => negb (c =? QUOTE))))
                      (Seq (Lit QUOTE)
                         (Seq (Star (Class isspace)) Eol)))))))).

(** The [for] loop of [update_cargo_version], one line at a time; the
    state is [(new_lines, replaced)]. *)
Definition cargo_step (version : str) (st : list str * bool) (line : str)
  : list str * bool :=
  let (new_lines, replaced) := st in
  if re_match version_pattern line
  then (new_lines ++ [py "version = " ++ QUOTE :: version ++ [QUOTE]], true)
  else (new_lines ++ [line], replaced).

Definition update_cargo_version (p : path) (version : str) : M unit :=
  text <- read_text p ;;
  let original := splitlines text in
  let (new_lines, replaced) := fold_left (cargo_step version) original ([], false) in
  if negb replaced
  then raise (SystemExit [Text "No version field found in "; Shown p])
  else write_text p (join [LF] new_lines ++ [LF]).

Definition escape_for_yaml (value : str) : str := json_dumps None (JStr value).

(** The [for] loop of [update_release_body]. *)
Definition release_step (escaped_body : str) (st : list str * bool) (line : str)
  : list str * bool :=
  let (new_lines, replaced) := st in
  if startswith (lstrip line) (py "releaseBody:")
  then
    let indent := spaces (List.length line - List.length (lstrip line)) in
    (new_lines ++ [indent ++ py "releaseBody: " ++ escaped_body ++ [LF]], true)
  else (new_lines ++ [line], replaced).

Definition update_release_body (p : path) (body : str) : M unit :=
  let escaped_body := escape_for_yaml body in
  text <- read_text p ;;
  let (new_lines, replaced) :=
    fold_left (release_step escaped_body) (readlines text) ([], false) in
  if negb replaced
  then raise (SystemExit [Text "Could not find releaseBody in "; Shown p])
  else write_text p (List.concat new_lines).


(** ** Vocabulary of the statements *)

(** A line of the shape [version = Q...Q]: the word, an equals sign and a
    quoted value without a quote inside, white space allowed around the
    equals sign and at the end, none at the start. *)
Definition version_line (line : str) : Prop :=
  exists ws1 ws2 value ws3,
    line = py "version" ++ ws1 ++ [0x3D] ++ ws2 ++ [QUOTE] ++ value ++ [QUOTE] ++ ws3
    /\ forallb isspace ws1 = true /\ forallb isspace ws2 = true
    /\ forallb isspace ws3 = true
    /\ forallb (fun c => negb (c =? QUOTE)) value = true.

(** The line [update_cargo_version] writes. *)
Definition cargo_version_line (version : str) : str :=
  py "version = " ++ QUOTE :: version ++ [QUOTE].

(** The lines [update_cargo_version] reads from a file. *)
Definition cargo_lines (text : str) : list str :=
  splitlines (universal_newlines text).

(** A line [update_release_body] replaces. *)
Definition is_release_body_line (line : str) : bool :=
  startswith (lstrip line) (py "releaseBody:").

(** The lines [update_release_body] reads from a file. *)
Definition release_lines (text : str) : list str :=
  readlines (universal_newlines text).

(** The line [update_release_body] writes in place of [line]. *)
Definition release_body_line (body line : str) : str :=
  spaces (List.length (leading_space line))
    ++ py "releaseBody: " ++ escape_for_yaml body ++ [LF].

(** Text as decoding bytes produces it.  A strict decoder yields Unicode
    scalar values only: code points that are not surrogates.  The
    [surrogateescape] handler, which Python may put on the standard
    input, also yields lone low surrogates.  Neither ever yields a high
    surrogate directly followed by a low one, which is two code points
    that JSON writes like the single character they encode. *)
Definition is_code_point (c : char) : bool := c <? 0x110000.

Definition is_scalar (c : char) : bool :=
  is_code_point c && negb (is_high_surrogate c) && negb (is_low_surrogate c).

Fixpoint no_surrogate_pair (s : str) : bool :=
  match s with
  | c :: r =>
      negb (is_high_surrogate c
            && match r with c' :: _ => is_low_surrogate c' | [] => false end)
      && no_surrogate_pair r
  | [] => true
  end.

Definition well_formed (s : str) : bool :=
  forallb is_code_point s && no_surrogate_pair s.

Definition is_printable_ascii (c : char) : bool := (0x20 <=? c) && (c <=? 0x7E).

(** ** updater-test/server.py *)

(** The part of [http.server.BaseHTTPRequestHandler] that the handler
    of the test server builds on.  Header text is Latin-1, so a [str] of
    code points below 256 is also the bytes sent. *)
Module BaseHTTPRequestHandler.

Record handler : Type := Handler {
  request_version : str;                 (* as parsed from the request line *)
  headers_buffer : option (list str);    (* [None]: attribute not yet set *)
  close_connection : bool;
  wfile : str                            (* the bytes written to the client *)
}.

Definition CRLF : str := [CR; LF].

Definition HTTP_0_9 : str := py "HTTP/0.9".

(** [s.lower()] on ASCII text. *)
Definition lower (s : str) : str :=
  map (fun c => if (0x41 <=? c) && (c <=? 0x5A) then c + 0x20 else c) s.

Definition buffer_append (line : str) (h : handler) : handler :=
  Handler (request_version h)
    (Some (match headers_buffer h with Some b => b | None => [] end ++ [line]))
    (close_connection h) (wfile h).

(** [send_response_only]: the status line goes to the buffer, unless
    the request is HTTP/0.9. *)
Definition send_response_only (status_line : str) (h : handler) : handler :=
  if str_eqb (request_version h) HTTP_0_9 then h
  else buffer_append (status_line ++ CRLF) h.

(** [send_header]: the header line goes to the buffer, unless the
    request is HTTP/0.9; a [Connection] header also sets
    [close_connection]. *)
Definition send_header (keyword value : str) (h : handler) : handler :=
  let h :=
    if str_eqb (request_version h) HTTP_0_9 then h
    else buffer_append (keyword ++ py ": " ++ value ++ CRLF) h in
  if str_eqb (lower keyword) (py "connection") then
    if str_eqb (lower value) (py "close")
    then Handler (request_version h) (headers_buffer h) true (wfile h)
    else if str_eqb (lower value) (py "keep-alive")
    then Handler (request_version h) (headers_buffer h) false (wfile h)
    else h
  else h.

Definition flush_headers (h : handler) : handler :=
  match headers_buffer h with
  | Some b =>
      Handler (request_version h) (Some []) (close_connection h)
        (wfile h ++ List.concat b)
  | None => h
  end.

(** [end_headers]: the blank line that ends the headers, then the
    buffer is written out; nothing at all for HTTP/0.9. *)
Definition end_headers (h : handler) : result handler :=
  if str_eqb (request_version h) HTTP_0_9 then Ok h
  else
    match headers_buffer h with
    | Some _ => Ok (flush_headers (buffer_append CRLF h))
    | None => Raise AttributeError
    end.

Definition write (data : str) (h : handler) : handler :=
  Handler (request_version h) (headers_buffer h) (close_connection h)
    (wfile h ++ data).



End BaseHTTPRequestHandler.

Module NoCacheRequestHandler.
Import BaseHTTPRequestHandler.

Definition CACHE_CONTROL : str := py "no-cache, no-store, must-revalidate".

Definition end_headers (h : handler) : result handler :=
  let h := send_header (py "Cache-Control") CACHE_CONTROL h in
  let h := send_header (py "Pragma") (py "no-cache") h in
  let h := send_header (py "Expires") (py "0") h in
  BaseHTTPRequestHandler.end_headers h.

(** The shape of every response of [SimpleHTTPRequestHandler], for a
    file, a directory listing, a redirect or an error alike: a status
    line, some headers, [self.end_headers()], which is the method
    above, and then the body. *)
Definition respond (status_line : str) (headers : list (str * str))
    (body : str) (h : handler) : result handler :=
  let h := send_response_only status_line h in
  let h := fold_left (fun h kv => send_header (fst kv) (snd kv) h) headers h in
  match end_headers h with
  | Ok h => Ok (write body h)
  | Raise e => Raise e
  | Unmodelled => Unmodelled
  end.


End NoCacheRequestHandler.

(** ** Vocabulary of the proofs *)

(** What follows a [\uXXXX] escape does not complete a surrogate pair:
    it is no [\uXXXX] escape, or one of a character that is not a low
    surrogate. *)
Definition no_low_escape (tail : str) : Prop :=
  match tail with
  | b :: u :: r3 =>
      (b =? BACKSLASH) && (u =? 0x75) = false
      \/ exists n r4, r3 = hex4 n ++ r4 /\ n < 0x10000 /\ is_low_surrogate n = false
  | _ => True
  end.

(** The cases of [escape_char]. *)
Inductive escape_case (c : char) : str -> Prop :=
| EscPlain :
    (c =? QUOTE) = false -> (c =? BACKSLASH) = false -> is_printable_ascii c = true ->
    escape_case c [c]
| EscShort e :
    (e =? 0x75) = false -> unescape e = Some c -> is_printable_ascii e = true ->
    escape_case c [BACKSLASH; e]
| EscU :
    c < 0x10000 -> escape_case c (uXXXX c)
| EscPair :
    0x10000 <= c ->
    escape_case c (uXXXX (0xD800 + (c - 0x10000) / 1024)
                   ++ uXXXX (0xDC00 + (c - 0x10000) mod 1024)).

(** A text that may follow a value in what [json.dumps] writes with an
    indent, or in the file the script writes: nothing, a comma or a line
    feed. *)
Definition delimited (rest : str) : Prop :=
  match rest with
  | [] => True
  | c :: _ => c = 0x2C \/ c = LF
  end.

(** The characters a rendered value can start with. *)
Definition value_start (c : char) : bool :=
  (c =? QUOTE) || (c =? 0x2D) || is_digit c || (c =? 0x6E) || (c =? 0x74)
  || (c =? 0x66) || (c =? 0x5B) || (c =? 0x7B).

(** Documents whose strings are well formed and whose objects hold each
    key once, as [json.loads] builds them from decoded text. *)
#[warnings="-register-all"]
Inductive json_wf : json -> Prop :=
| WfNull : json_wf JNull
| WfBool b : json_wf (JBool b)
| WfInt n : json_wf (JInt n)
| WfStr s : well_formed s = true -> json_wf (JStr s)
| WfList items : Forall json_wf items -> json_wf (JList items)
| WfDict members :
    NoDup (map fst members) ->
    Forall (fun kv => well_formed (fst kv) = true /\ json_wf (snd kv)) members ->
    json_wf (JDict members).

(** Fuel that suffices to scan the rendering of a document. *)
Fixpoint need (o : json) : nat :=
  match o with
  | JList items => S (fold_right (fun x acc => S (need x + acc)) 0%nat items)
  | JDict members =>
      S (fold_right (fun kv acc => S (need (snd kv) + acc)) 0%nat members)
  | _ => 1%nat
  end.

(** What decoding makes of an encoded string: a high surrogate directly
    followed by a low one is written like the character the two encode,
    and read back as that character.  A well-formed string is left as
    it is. *)
Fixpoint normalize (s : str) : str :=
  match s with
  | [] => []
  | c :: r =>
      match r with
      | c' :: r' =>
          if is_high_surrogate c && is_low_surrogate c'
          then join_surrogates c c' :: normalize r'
          else c :: normalize r
      | [] => [c]
      end
  end.

(** The same on the string values of a document; the keys are kept. *)
Fixpoint normalize_json (o : json) : json :=
  match o with
  | JStr s => JStr (normalize s)
  | JList items => JList (map normalize_json items)
  | JDict members => JDict (map (fun kv => (fst kv, normalize_json (snd kv))) members)
  | _ => o
  end.

Definition normalize_dict (d : dict) : dict :=
  map (fun kv => (fst kv, normalize_json (snd kv))) d.

(** Documents of Python values: strings are sequences of code points;
    the keys of an object are well formed and differ from one another. *)
#[warnings="-register-all"]
Inductive json_encodable : json -> Prop :=
| EncNull : json_encodable JNull
| EncBool b : json_encodable (JBool b)
| EncInt n : json_encodable (JInt n)
| EncStr s : forallb is_code_point s = true -> json_encodable (JStr s)
| EncList items : Forall json_encodable items -> json_encodable (JList items)
| EncDict members :
    NoDup (map fst members) ->
    Forall (fun kv => well_formed (fst kv) = true /\ json_encodable (snd kv)) members ->
    json_encodable (JDict members).

(** Scanning the rendering of [o] at any nesting level, before any
    delimited text and with fuel enough, gives [o] back, normalized, and
    stops right after it. *)
Definition decodes_back (indent : nat) (o : json) : Prop :=
  forall level rest fuel,
    delimited rest -> (need o <= fuel)%nat ->
    scan_once fuel (iterencode (Some indent) level o ++ rest)
    = Scanned (normalize_json o) rest.

(** The rendering of one member of an object. *)
Definition encode_member (indent : option nat) (level : nat) (kv : str * json) : str :=
  encode_basestring_ascii (fst kv) ++ py ": " ++ iterencode indent level (snd kv).

(** The text starts with a [\uXXXX] escape of a low surrogate. *)
Definition low_head (s : str) : Prop :=
  exists g1 g2 g3 g4 r u,
    s = BACKSLASH :: 0x75 :: g1 :: g2 :: g3 :: g4 :: r
    /\ decode_uXXXX g1 g2 g3 g4 = Some u
    /\ is_low_surrogate u = true.

(** What [scanstring] is shown to build from decoded text [s]: a
    well-formed string [t], leaving decoded text [rest]; and [t] starts
    with a low surrogate only if [s] starts with its escape. *)
Definition scanned_well (s t rest : str) : Prop :=
  forallb is_code_point t = true /\ no_surrogate_pair t = true
  /\ forallb is_scalar rest = true
  /\ (forall c t', t = c :: t' -> is_low_surrogate c = true -> low_head s).

(** What [update_json_version] makes of a decoded object: lines 29 to 35
    of the script. *)
Definition bump_json (d : dict) (version : str) : dict :=
  set_root_package_version (dict_set (py "version") (JStr version) d) version.

(** The characters [json.dumps] writes: printable ASCII and, with an
    indent, line feeds. *)
Definition is_dumps_char (c : char) : bool := is_printable_ascii c || (c =? LF).





(** The lines [update_cargo_version] writes for the lines it read. *)
Definition cargo_new_lines (version : str) (lines : list str) : list str :=
  map (fun line => if re_match version_pattern line
                   then cargo_version_line version else line) lines.

(** ** Sample inputs *)

(** A literal in which every apostrophe stands for a double quote. *)
Definition pyq (s : string) : str :=
  map (fun c => if c =? 0x27 then QUOTE else c) (py s).

(** A world that holds one file. *)
Definition one_file (p : path) (text : str) : world :=
  World (fun q => if path_eqb p q then Some text else None) [].

(** A build manifest without a version line the pattern accepts: the
    only candidate is indented. *)
Definition cargo_without_version : str :=
  py "[package]" ++ [LF] ++ pyq "name = 'app'" ++ [LF]
    ++ pyq "  version = '1.0.0'" ++ [LF].

(** A build manifest with two version lines. *)
Definition cargo_two_versions : str :=
  py "[package]" ++ [LF] ++ pyq "version = '1.0.0'" ++ [LF]
    ++ py "[dependencies.serde]" ++ [LF] ++ pyq "version='1' " ++ [LF].

(** A workflow whose key is indented by four spaces. *)
Definition workflow_spaces : str :=
  py "with:" ++ [LF] ++ pyq "    releaseBody: 'old notes'" ++ [LF]
    ++ py "    draft: true" ++ [LF].

(** A workflow whose key is indented by a tab. *)
Definition workflow_tab : str :=
  0x09 :: pyq "releaseBody: 'old notes'" ++ [LF].

(** Release notes with a quoted word and a line break. *)
Definition notes_quoted : str := pyq "Fixes 'it'" ++ [LF] ++ py "and more".






(** A request without a protocol version, that is HTTP/0.9, and one
    with HTTP/1.1, before anything has been sent. *)
Definition simple_request : BaseHTTPRequestHandler.handler :=
  BaseHTTPRequestHandler.Handler BaseHTTPRequestHandler.HTTP_0_9 None true [].







(** ** Proof automation *)

(** Linear arithmetic with division and remainder by constants. *)
Ltac divlia := zify; Z.to_euclidean_division_equations; lia.

(** Boolean facts about characters, turned into arithmetic. *)
Ltac char_facts :=
  repeat match goal with
         | H : (_ || _) = true |- _ => apply orb_true_iff in H as [H|H]
         | H : (_ && _) = true |- _ => apply andb_true_iff in H as [? ?]
         | H : (_ =? _) = true |- _ => apply N.eqb_eq in H; subst
         | H : (_ <=? _) = true |- _ => apply N.leb_le in H
         | H : (_ <? _) = true |- _ => apply N.ltb_lt in H
         end.


#[global] Arguments at_eol : simpl never.

(** ** Vocabulary of the further properties *)

(** No line boundary of [str.splitlines] occurs in [s]. *)
Definition no_linebreak (s : str) : bool :=
  forallb (fun c => negb (islinebreak c)) s.

Definition no_quote (s : str) : bool := forallb (fun c => negb (c =? QUOTE)) s.

Definition no_cr (s : str) : bool := forallb (fun c => negb (c =? CR)) s.

Definition no_lf (s : str) : bool := forallb (fun c => negb (c =? LF)) s.

(** A line of a text file with its line feed. *)
Definition terminated (line : str) : Prop :=
  exists s, line = s ++ [LF] /\ no_lf s = true.

(** The lines iterating over a text file gives: each with its line
    feed, the last one possibly without, none empty. *)
Inductive file_lines : list str -> Prop :=
| FileEnd : file_lines []
| FileLast s : s <> [] -> no_lf s = true -> file_lines [s]
| FileLine line rest : terminated line -> file_lines rest -> file_lines (line :: rest).

(** What [update_cargo_version] writes to a file that held [text]. *)
Definition cargo_text (version text : str) : str :=
  join [LF] (cargo_new_lines version (cargo_lines text)) ++ [LF].

(** What [update_release_body] writes to a file that held [text]. *)
Definition release_new_lines (body : str) (lines : list str) : list str :=
  map (fun line => if is_release_body_line line
                   then release_body_line body line else line) lines.

Definition release_text (body text : str) : str :=
  List.concat (release_new_lines body (release_lines text)).

(** What [update_json_version] and [update_tauri_conf] write to a file
    that decoded to the object [d]. *)
Definition json_version_text (version : str) (d : dict) : str :=
  json_dumps (Some 2%nat) (JDict (bump_json d version)) ++ [LF].








(** Text that [json.dumps] writes between the quotes as it is:
    printable ASCII without the double quote and the backslash. *)
Definition is_plain_char (c : char) : bool :=
  is_printable_ascii c && negb (c =? QUOTE) && negb (c =? BACKSLASH).

(** ** Further sample inputs *)

(** A build manifest with Windows line ends. *)
Definition cargo_crlf : str :=
  py "[package]" ++ [CR; LF] ++ pyq "version = '1.0.0'" ++ [CR; LF].

(** A version with a double quote in it. *)
Definition quoted_version : str := pyq "1.2'3".

(** A request with HTTP/1.1 whose response has begun. *)
Definition started_request : BaseHTTPRequestHandler.handler :=
  BaseHTTPRequestHandler.Handler (py "HTTP/1.1")
    (Some [py "HTTP/1.0 200 OK" ++ BaseHTTPRequestHandler.CRLF]) false [].







(** * Properties *)

(** ** Strings *)

Lemma str_eqb_eq (a b : str) : str_eqb a b = true <-> a = b.
Proof.
  unfold str_eqb. destruct (list_eq_dec N.eq_dec a b); split; congruence.
Qed.

Lemma str_eqb_refl (a : str) : str_eqb a a = true.
Proof. now apply str_eqb_eq. Qed.

Lemma str_eqb_neq (a b : str) : str_eqb a b = false <-> a <> b.
Proof.
  unfold str_eqb. destruct (list_eq_dec N.eq_dec a b); split; congruence.
Qed.

Lemma lstrip_split (s : str) : s = leading_space s ++ lstrip s.
Proof.
  induction s as [|c r IH]; simpl; [reflexivity|].
  destruct (isspace c); simpl; congruence.
Qed.

Lemma leading_space_isspace (s : str) : forallb isspace (leading_space s) = true.
Proof.
  induction s as [|c r IH]; simpl; [reflexivity|].
  destruct (isspace c) eqn:E; simpl; [now rewrite E|reflexivity].
Qed.

Lemma lstrip_head (s : str) :
  match lstrip s with c :: _ => isspace c = false | [] => True end.
Proof.
  induction s as [|c r IH]; simpl; [exact I|].
  destruct (isspace c) eqn:E; [exact IH|exact E].
Qed.

Lemma lstrip_nil_iff (s : str) : lstrip s = [] <-> forallb isspace s = true.
Proof.
  induction s as [|c r IH]; simpl; [tauto|].
  destruct (isspace c); simpl; [exact IH|split; discriminate].
Qed.

Lemma lstrip_length (s : str) :
  List.length (leading_space s) = (List.length s - List.length (lstrip s))%nat.
Proof.
  rewrite (lstrip_split s) at 2. rewrite length_app. lia.
Qed.

Lemma forallb_tl {A} (p : A -> bool) (a : A) (l : list A) :
  forallb p (a :: l) = true -> forallb p l = true.
Proof. cbn [forallb]. intros H. now apply andb_true_iff in H. Qed.

Lemma forallb_rev {A} (p : A -> bool) (l : list A) :
  forallb p (rev l) = forallb p l.
Proof.
  induction l as [|a l IH]; simpl; [reflexivity|].
  rewrite forallb_app, IH. simpl. rewrite andb_true_r. apply andb_comm.
Qed.

Lemma rstrip_split (s : str) : s = rstrip s ++ rev (leading_space (rev s)).
Proof.
  unfold rstrip. rewrite <- rev_app_distr, <- lstrip_split. now rewrite rev_involutive.
Qed.

Lemma rstrip_nil_iff (s : str) : rstrip s = [] <-> forallb isspace s = true.
Proof.
  unfold rstrip. rewrite <- (forallb_rev isspace s), <- lstrip_nil_iff.
  split; intros H.
  - apply (f_equal (@rev _)) in H. now rewrite rev_involutive in H.
  - now rewrite H.
Qed.

Lemma rstrip_last (s : str) :
  match rev (rstrip s) with c :: _ => isspace c = false | [] => True end.
Proof. unfold rstrip. rewrite rev_involutive. apply lstrip_head. Qed.

(** Stripping on the right leaves the first character alone when it is
    not white space. *)
Lemma rstrip_head (s : str) :
  match s with
  | c :: _ => isspace c = false -> exists t, rstrip s = c :: t
  | [] => True
  end.
Proof.
  destruct s as [|c r]; [exact I|]. intros Hc.
  destruct (rstrip (c :: r)) as [|c' t] eqn:E.
  - apply rstrip_nil_iff in E. simpl in E. now rewrite Hc in E.
  - pose proof (rstrip_split (c :: r)) as H. rewrite E in H.
    simpl in H. injection H as -> _. now exists t.
Qed.

Lemma strip_nil_iff (s : str) : strip s = [] <-> forallb isspace s = true.
Proof.
  unfold strip. rewrite rstrip_nil_iff. split; intros H.
  - rewrite (lstrip_split s), forallb_app, leading_space_isspace, H. reflexivity.
  - rewrite (lstrip_split s), forallb_app in H. now apply andb_true_iff in H.
Qed.

Lemma strip_split (s : str) :
  s = leading_space s ++ strip s ++ rev (leading_space (rev (lstrip s))).
Proof.
  unfold strip. rewrite <- rstrip_split. apply lstrip_split.
Qed.

Lemma strip_ends (s : str) :
  match strip s with c :: _ => isspace c = false | [] => True end
  /\ match rev (strip s) with c :: _ => isspace c = false | [] => True end.
Proof.
  split; [|apply rstrip_last].
  unfold strip. pose proof (lstrip_head s) as H.
  pose proof (rstrip_head (lstrip s)) as H'.
  destruct (lstrip s) as [|c r]; [reflexivity|].
  destruct (H' H) as [t ->]. exact H.
Qed.

(** ** [prompt] *)

(** C8.  [prompt] reads one line from the operator.  A line that is
    empty or holds only white space ends the run with [SystemExit] and no
    value is returned; any other line is returned stripped: the line is
    the returned value between two runs of white space, and the returned
    value neither starts nor ends with white space. *)
Theorem prompt_strips_or_exits (fs : path -> option str) (line : str) (rest : list str) :
  prompt (World fs (line :: rest))
  = (World fs rest,
     if forallb isspace line
     then Raise (SystemExit [Text "Input cannot be empty."])
     else Ok (strip line))
  /\ (exists lead trail,
        line = lead ++ strip line ++ trail
        /\ forallb isspace lead = true /\ forallb isspace trail = true)
  /\ match strip line with c :: _ => isspace c = false | [] => True end
  /\ match rev (strip line) with c :: _ => isspace c = false | [] => True end.
Proof.
  split; [|split; [|apply strip_ends]].
  - unfold prompt, bind, input. simpl.
    destruct (strip line) as [|c t] eqn:E.
    + apply strip_nil_iff in E. now rewrite E.
    + destruct (forallb isspace line) eqn:F; [|reflexivity].
      apply strip_nil_iff in F. congruence.
  - exists (leading_space line), (rev (leading_space (rev (lstrip line)))).
    split; [apply strip_split|].
    split; [apply leading_space_isspace|].
    rewrite forallb_rev. apply leading_space_isspace.
Qed.

(** ** The regular-expression matcher *)

Lemma nullable_matches (r : regex) (before after : str) :
  nullable (is_nil before) (at_eol after) r = true -> matches r before [] after.
Proof.
  induction r as [| |p|a IHa b IHb|a IHa b IHb|a IHa| |]; simpl; intros H;
    try discriminate.
  - constructor.
  - apply andb_true_iff in H as [Ha Hb].
    change (@nil char) with (@nil char ++ []).
    constructor; [now apply IHa|]. rewrite app_nil_r. now apply IHb.
  - apply orb_true_iff in H as [H|H]; [apply MAltL|apply MAltR]; auto.
  - constructor.
  - destruct before; [constructor|discriminate].
  - now constructor.
Qed.

Lemma matches_nullable (r : regex) (before w after : str) :
  matches r before w after -> w = [] ->
  nullable (is_nil before) (at_eol after) r = true.
Proof.
  induction 1 as [| |a b before w1 w2 after _ IH1 _ IH2| a b before w after _ IH
                  | a b before w after _ IH| | | |]; simpl; intros Hw;
    try reflexivity; try discriminate.
  - apply app_eq_nil in Hw as [-> ->]. rewrite app_nil_r in IH2.
    simpl in IH1. now rewrite IH1, IH2.
  - now rewrite IH.
  - rewrite IH by assumption. apply orb_true_r.
  - assumption.
Qed.

Lemma nullable_iff (r : regex) (before after : str) :
  nullable (is_nil before) (at_eol after) r = true <-> matches r before [] after.
Proof.
  split; [apply nullable_matches|]. intros H. now apply matches_nullable with (w := []).
Qed.

Lemma is_nil_snoc {A} (l : list A) (a : A) : is_nil (l ++ [a]) = false.
Proof. now destruct l. Qed.

Lemma snoc_app {A} (l : list A) (a : A) (m : list A) : (l ++ [a]) ++ m = l ++ a :: m.
Proof. now rewrite <- app_assoc. Qed.

(** Soundness of the derivative. *)
Lemma deriv_sound (r : regex) : forall (before : str) (c : char) (w after : str),
  matches (deriv (is_nil before) (at_eol (c :: w ++ after)) c r)
    (before ++ [c]) w after ->
  matches r before (c :: w) after.
Proof.
  induction r as [| |p|a IHa b IHb|a IHa b IHb|a IHa| |];
    intros before c w after H; simpl in H; try solve [inversion H].
  - destruct (p c) eqn:E; inversion H; subst. now constructor.
  - assert (Hseq : forall w1 w2,
               w = w1 ++ w2 ->
               matches (deriv (is_nil before) (at_eol (c :: w ++ after)) c a)
                 (before ++ [c]) w1 (w2 ++ after) ->
               matches b ((before ++ [c]) ++ w1) w2 after ->
               matches (Seq a b) before (c :: w) after).
    { intros w1 w2 -> H1 H2. rewrite <- app_assoc in H1.
      apply IHa in H1. rewrite snoc_app in H2.
      change (c :: w1 ++ w2) with ((c :: w1) ++ w2). now constructor. }
    destruct (nullable (is_nil before) (at_eol (c :: w ++ after)) a) eqn:N.
    + inversion H; subst.
      * match goal with X : matches (Seq _ _) _ _ _ |- _ => inversion X; subst end.
        eapply Hseq; eauto.
      * apply nullable_matches in N.
        change (c :: w) with ([] ++ c :: w). constructor; [exact N|].
        rewrite app_nil_r. now apply IHb.
    + inversion H; subst. eapply Hseq; eauto.
  - inversion H; subst; [apply MAltL|apply MAltR]; auto.
  - inversion H; subst.
    match goal with X : matches (deriv _ _ _ _) _ _ _ |- _ => rename X into H1 end.
    match goal with X : matches (Star _) _ _ _ |- _ => rename X into H2 end.
    rewrite <- app_assoc in H1. apply IHa in H1. rewrite snoc_app in H2.
    change (c :: w1 ++ w2) with ((c :: w1) ++ w2). now constructor.
Qed.

(** Completeness of the derivative. *)
Lemma deriv_complete (r : regex) (before w0 after : str) :
  matches r before w0 after ->
  forall c t, w0 = c :: t ->
  matches (deriv (is_nil before) (at_eol (c :: t ++ after)) c r)
    (before ++ [c]) t after.
Proof.
  induction 1 as [|p c0 before after Hp
                  |a b before w1 w2 after H1 IH1 H2 IH2
                  |a b before w after _ IH|a b before w after _ IH
                  |
                  |a before w1 w2 after H1 IH1 H2 IH2| |];
    intros c t Hw; simpl; try discriminate.
  - injection Hw as -> <-. rewrite Hp. constructor.
  - destruct w1 as [|c1 w1'].
    + simpl in Hw. subst w2. rewrite app_nil_r in H2, IH2.
      apply matches_nullable in H1; [|reflexivity]. simpl in H1. rewrite H1.
      apply MAltR. now apply IH2.
    + simpl in Hw. injection Hw as -> <-.
      specialize (IH1 c w1' eq_refl).
      rewrite <- snoc_app in H2.
      assert (matches (Seq (deriv (is_nil before) (at_eol (c :: w1' ++ w2 ++ after)) c a) b)
                (before ++ [c]) (w1' ++ w2) after) as HS by now constructor.
      rewrite <- app_assoc.
      destruct (nullable _ _ a); [now apply MAltL|exact HS].
  - apply MAltL. now apply IH.
  - apply MAltR. now apply IH.
  - destruct w1 as [|c1 w1'].
    + simpl in Hw. subst w2. rewrite app_nil_r in IH2. now apply IH2.
    + simpl in Hw. injection Hw as -> <-.
      specialize (IH1 c w1' eq_refl).
      rewrite <- snoc_app in H2. rewrite <- app_assoc. now constructor.
Qed.

(** The matcher decides whether the pattern matches a prefix of the
    rest of the subject. *)
Lemma match_from_iff (s : str) : forall (r : regex) (before : str),
  match_from (is_nil before) r s = true
  <-> exists w after, s = w ++ after /\ matches r before w after.
Proof.
  induction s as [|c s IH]; intros r before; simpl.
  - rewrite orb_false_r. change true with (at_eol []) at 1. rewrite nullable_iff.
    split.
    + intros H. now exists [], [].
    + intros (w & after & E & H). symmetry in E.
      apply app_eq_nil in E as [-> ->]. exact H.
  - rewrite orb_true_iff. split.
    + intros [H|H].
      * exists [], (c :: s). split; [reflexivity|]. now apply nullable_iff.
      * rewrite <- (is_nil_snoc before c) in H. apply IH in H as (w & after & -> & H).
        exists (c :: w), after. split; [reflexivity|].
        now apply deriv_sound.
    + intros (w & after & E & H). destruct w as [|c' w].
      * simpl in E. subst after. left. now apply nullable_iff.
      * simpl in E. injection E as <- ->. right.
        rewrite <- (is_nil_snoc before c) at 1. apply IH.
        exists w, after. split; [reflexivity|].
        now apply deriv_complete with (w0 := c :: w).
Qed.

Lemma re_match_iff (r : regex) (s : str) :
  re_match r s = true <-> exists w after, s = w ++ after /\ matches r [] w after.
Proof. apply (match_from_iff s r []). Qed.

Lemma seq_inv (a b : regex) (before w after : str) :
  matches (Seq a b) before w after ->
  exists w1 w2, w = w1 ++ w2 /\ matches a before w1 (w2 ++ after)
                /\ matches b (before ++ w1) w2 after.
Proof. inversion 1; subst. eauto. Qed.

Lemma lit_inv (c : char) (before w after : str) :
  matches (Lit c) before w after -> w = [c].
Proof.
  unfold Lit. inversion 1; subst.
  match goal with X : (_ =? _) = true |- _ => apply N.eqb_eq in X; now subst end.
Qed.

Lemma lit_intro (c : char) (before after : str) : matches (Lit c) before [c] after.
Proof. constructor. apply N.eqb_refl. Qed.

Lemma word_inv (s : str) : forall before w after,
  matches (Word s) before w after -> w = s.
Proof.
  induction s as [|c s IH]; simpl; intros before w after H.
  - now inversion H.
  - apply seq_inv in H as (w1 & w2 & -> & H1 & H2).
    apply lit_inv in H1 as ->. apply IH in H2 as ->. reflexivity.
Qed.

Lemma word_intro (s : str) : forall before after, matches (Word s) before s after.
Proof.
  induction s as [|c s IH]; simpl; intros before after; [constructor|].
  change (c :: s) with ([c] ++ s). constructor; [apply lit_intro|apply IH].
Qed.

Lemma star_class_inv (p : char -> bool) (before w after : str) :
  matches (Star (Class p)) before w after -> forallb p w = true.
Proof.
  intros H. remember (Star (Class p)) as r eqn:E.
  induction H as [| | | | | |a before w1 w2 after H1 _ _ IH2| |]; try discriminate.
  - reflexivity.
  - injection E as ->. inversion H1; subst. simpl.
    match goal with X : p _ = true |- _ => rewrite X end. now apply IH2.
Qed.

Lemma star_class_intro (p : char -> bool) (w : str) : forall before after,
  forallb p w = true -> matches (Star (Class p)) before w after.
Proof.
  induction w as [|c w IH]; simpl; intros before after H; [constructor|].
  apply andb_true_iff in H as [Hc Hw].
  change (c :: w) with ([c] ++ w). constructor; [now constructor|now apply IH].
Qed.

Lemma at_eol_isspace (after : str) : at_eol after = true -> forallb isspace after = true.
Proof.
  destruct after as [|c [|c' r]]; simpl; try discriminate; try reflexivity.
  intros H. apply N.eqb_eq in H. now subst.
Qed.

(** The pattern of the script matches exactly the lines of the shape
    [version_line]. *)
Lemma version_pattern_spec (line : str) :
  re_match version_pattern line = true <-> version_line line.
Proof.
  rewrite re_match_iff. unfold version_pattern, version_line. split.
  - intros (w & after & -> & H).
    apply seq_inv in H as (w0 & t0 & -> & H0 & H). inversion H0; subst. clear H0.
    apply seq_inv in H as (w1 & t1 & -> & H1 & H). apply word_inv in H1 as ->.
    apply seq_inv in H as (ws1 & t2 & -> & H1 & H). apply star_class_inv in H1.
    apply seq_inv in H as (e & t3 & -> & He & H). apply lit_inv in He as ->.
    apply seq_inv in H as (ws2 & t4 & -> & H2 & H). apply star_class_inv in H2.
    apply seq_inv in H as (q1 & t5 & -> & Hq & H). apply lit_inv in Hq as ->.
    apply seq_inv in H as (value & t6 & -> & Hv & H). apply star_class_inv in Hv.
    apply seq_inv in H as (q2 & t7 & -> & Hq & H). apply lit_inv in Hq as ->.
    apply seq_inv in H as (ws3 & t8 & -> & H3 & H). apply star_class_inv in H3.
    inversion H; subst.
    exists ws1, ws2, value, (ws3 ++ after). repeat split; try assumption.
    + rewrite <- !app_assoc. reflexivity.
    + rewrite forallb_app, H3. simpl. now apply at_eol_isspace.
  - intros (ws1 & ws2 & value & ws3 & -> & H1 & H2 & H3 & Hv).
    exists (py "version" ++ ws1 ++ [0x3D] ++ ws2 ++ [QUOTE] ++ value ++ [QUOTE] ++ ws3), [].
    split; [now rewrite app_nil_r|].
    change (py "version" ++ ws1 ++ [0x3D] ++ ws2 ++ [QUOTE] ++ value ++ [QUOTE] ++ ws3)
      with ([] ++ py "version" ++ ws1 ++ [0x3D] ++ ws2 ++ [QUOTE] ++ value ++ [QUOTE] ++ ws3).
    constructor; [constructor|].
    constructor; [apply word_intro|].
    constructor; [now apply star_class_intro|].
    constructor; [apply lit_intro|].
    constructor; [now apply star_class_intro|].
    constructor; [apply lit_intro|].
    constructor; [now apply star_class_intro|].
    constructor; [apply lit_intro|].
    rewrite <- (app_nil_r ws3).
    constructor; [now apply star_class_intro|].
    now constructor.
Qed.

(** ** [update_cargo_version] *)

(** The loop is a map over the lines together with a search for a
    matching one. *)
Lemma cargo_fold (version : str) (lines : list str) : forall acc flag,
  fold_left (cargo_step version) lines (acc, flag)
  = (acc ++ map (fun line => if re_match version_pattern line
                             then cargo_version_line version else line) lines,
     flag || existsb (re_match version_pattern) lines).
Proof.
  induction lines as [|l lines IH]; intros acc flag; simpl.
  - now rewrite app_nil_r, orb_false_r.
  - destruct (re_match version_pattern l); rewrite IH, <- app_assoc; simpl.
    + now rewrite orb_true_r.
    + reflexivity.
Qed.

Lemma update_cargo_version_run (p : path) (version : str) (w : world) (text : str) :
  files w p = Some text ->
  update_cargo_version p version w
  = if existsb (re_match version_pattern) (cargo_lines text)
    then write_text p
           (join [LF]
              (map (fun line => if re_match version_pattern line
                                then cargo_version_line version else line)
                 (cargo_lines text)) ++ [LF]) w
    else (w, Raise (SystemExit [Text "No version field found in "; Shown p])).
Proof.
  intros Hf. unfold update_cargo_version, bind, read_text. rewrite Hf.
  fold (cargo_lines text). rewrite cargo_fold. simpl.
  now destruct (existsb (re_match version_pattern) (cargo_lines text)).
Qed.

Lemma no_version_line (lines : list str) :
  (forall line, In line lines -> ~ version_line line) ->
  existsb (re_match version_pattern) lines = false.
Proof.
  intros H. destruct (existsb _ lines) eqn:E; [|reflexivity].
  apply existsb_exists in E as (line & Hin & Hm).
  apply version_pattern_spec in Hm. now destruct (H line Hin).
Qed.

Lemma path_eqb_refl (p : path) : path_eqb p p = true.
Proof. unfold path_eqb. now destruct (list_eq_dec string_dec p p). Qed.

Lemma path_eqb_neq (p q : path) : p <> q -> path_eqb p q = false.
Proof. unfold path_eqb. now destruct (list_eq_dec string_dec p q). Qed.

(** C2.  When no line of the build manifest has the shape
    [version = Q...Q] that the pattern of the script matches,
    [update_cargo_version] raises [SystemExit] and the world is the one
    it started from: nothing is written, the file keeps its content. *)
Theorem update_cargo_version_no_match (p : path) (version : str) (w : world) (text : str) :
  files w p = Some text ->
  (forall line, In line (cargo_lines text) -> ~ version_line line) ->
  update_cargo_version p version w
  = (w, Raise (SystemExit [Text "No version field found in "; Shown p])).
Proof.
  intros Hf Hn. rewrite (update_cargo_version_run _ _ _ _ Hf).
  now rewrite (no_version_line _ Hn).
Qed.

Lemma update_cargo_version_no_match_witness :
  update_cargo_version CARGO_TOML (py "1.2.3") (one_file CARGO_TOML cargo_without_version)
  = (one_file CARGO_TOML cargo_without_version,
     Raise (SystemExit [Text "No version field found in "; Shown CARGO_TOML])).
Proof.
  apply (update_cargo_version_no_match CARGO_TOML (py "1.2.3")
           (one_file CARGO_TOML cargo_without_version) cargo_without_version).
  - reflexivity.
  - intros line Hin Hv. apply version_pattern_spec in Hv.
    repeat (destruct Hin as [<-|Hin]; [vm_compute in Hv; discriminate Hv|]).
    destruct Hin.
Defined.

(** C9.  When more than one line of the build manifest matches the
    version pattern, [update_cargo_version] succeeds and writes the file
    back line by line: every matching line, not only the first, has
    become the line giving the new version, every other line is as it
    was, and each line is ended by a line feed.  No other file changes. *)
Theorem update_cargo_version_replaces_all
    (p : path) (version : str) (w : world) (text : str) (i j : nat) (li lj : str) :
  files w p = Some text ->
  i <> j ->
  nth_error (cargo_lines text) i = Some li -> version_line li ->
  nth_error (cargo_lines text) j = Some lj -> version_line lj ->
  exists w' new_lines,
    update_cargo_version p version w = (w', Ok tt)
    /\ files w' p = Some (join [LF] new_lines ++ [LF])
    /\ (forall q, q <> p -> files w' q = files w q)
    /\ List.length new_lines = List.length (cargo_lines text)
    /\ (forall k line, nth_error (cargo_lines text) k = Some line ->
          (version_line line -> nth_error new_lines k = Some (cargo_version_line version))
          /\ (~ version_line line -> nth_error new_lines k = Some line)).
Proof.
  intros Hf _ Hi Hvi _ _. rewrite (update_cargo_version_run _ _ _ _ Hf).
  assert (existsb (re_match version_pattern) (cargo_lines text) = true) as ->.
  { apply existsb_exists. exists li. split; [eapply nth_error_In; eauto|].
    now apply version_pattern_spec. }
  eexists _, _. split; [reflexivity|]. simpl. rewrite path_eqb_refl.
  split; [reflexivity|]. split; [|split].
  - intros q Hq. rewrite path_eqb_neq; congruence.
  - apply length_map.
  - intros k line Hk. rewrite nth_error_map, Hk. simpl.
    destruct (re_match version_pattern line) eqn:E.
    + split; [reflexivity|]. intros Hn. apply version_pattern_spec in E. now destruct Hn.
    + split; [|reflexivity]. intros Hv. apply version_pattern_spec in Hv. congruence.
Qed.

Lemma update_cargo_version_replaces_all_witness :
  exists w' new_lines,
    update_cargo_version CARGO_TOML (py "1.2.3") (one_file CARGO_TOML cargo_two_versions)
    = (w', Ok tt)
    /\ files w' CARGO_TOML = Some (join [LF] new_lines ++ [LF])
    /\ nth_error new_lines 1 = Some (cargo_version_line (py "1.2.3"))
    /\ nth_error new_lines 3 = Some (cargo_version_line (py "1.2.3"))
    /\ nth_error new_lines 2 = Some (py "[dependencies.serde]").
Proof.
  destruct (update_cargo_version_replaces_all CARGO_TOML (py "1.2.3")
              (one_file CARGO_TOML cargo_two_versions) cargo_two_versions 1 3
              (pyq "version = '1.0.0'") (pyq "version='1' "))
    as (w' & new_lines & Hrun & Hfile & _ & _ & Hlines).
  - reflexivity.
  - discriminate.
  - reflexivity.
  - apply version_pattern_spec. reflexivity.
  - reflexivity.
  - apply version_pattern_spec. reflexivity.
  - exists w', new_lines. split; [exact Hrun|]. split; [exact Hfile|].
    split; [|split].
    + apply (Hlines 1%nat (pyq "version = '1.0.0'") eq_refl).
      apply version_pattern_spec. reflexivity.
    + apply (Hlines 3%nat (pyq "version='1' ") eq_refl).
      apply version_pattern_spec. reflexivity.
    + apply (Hlines 2%nat (py "[dependencies.serde]") eq_refl).
      intros Hv. apply version_pattern_spec in Hv. vm_compute in Hv. discriminate Hv.
Defined.

(** ** JSON strings: encoding and decoding *)

Lemma hexval_hexdigit (d : N) : d < 16 -> hexval (hexdigit d) = Some d.
Proof.
  intros H. unfold hexdigit, hexval.
  destruct (d <? 10) eqn:E.
  - apply N.ltb_lt in E.
    replace ((48 <=? 48 + d) && (48 + d <=? 57)) with true
      by (symmetry; apply andb_true_iff; split; apply N.leb_le; lia).
    f_equal. lia.
  - apply N.ltb_ge in E.
    replace ((48 <=? 87 + d) && (87 + d <=? 57)) with false
      by (symmetry; apply andb_false_iff; right; apply N.leb_gt; lia).
    replace ((97 <=? 87 + d) && (87 + d <=? 102)) with true
      by (symmetry; apply andb_true_iff; split; apply N.leb_le; lia).
    f_equal. lia.
Qed.

Lemma hexdigit_printable (d : N) : d < 16 -> is_printable_ascii (hexdigit d) = true.
Proof.
  intros H. unfold hexdigit, is_printable_ascii.
  destruct (d <? 10); apply andb_true_iff; split; apply N.leb_le; lia.
Qed.

Lemma decode_hex4 (n : N) :
  n < 0x10000 ->
  decode_uXXXX (hexdigit (n / 0x1000 mod 16)) (hexdigit (n / 0x100 mod 16))
    (hexdigit (n / 0x10 mod 16)) (hexdigit (n mod 16)) = Some n.
Proof.
  intros H. unfold decode_uXXXX.
  rewrite !hexval_hexdigit by (apply N.mod_lt; discriminate).
  f_equal. divlia.
Qed.

Lemma lor_shiftl_low (a x k : N) :
  x < 2 ^ k -> N.lor (N.shiftl a k) x = a * 2 ^ k + x.
Proof.
  intros H. rewrite <- N.lxor_lor, <- N.add_nocarry_lxor, N.shiftl_mul_pow2;
    try reflexivity;
    (apply N.bits_inj; intros m; rewrite N.land_spec, N.bits_0;
     destruct (N.lt_ge_cases m k) as [L|L];
     [now rewrite N.shiftl_spec_low|];
     destruct (N.eq_dec x 0) as [->|Hx]; [now rewrite N.bits_0, andb_false_r|];
     rewrite (N.bits_above_log2 x m), andb_false_r; [reflexivity|];
     apply N.lt_le_trans with k; [|exact L];
     apply N.log2_lt_pow2; lia).
Qed.

(** The two halves of the surrogate pair written for a character from
    [0x10000] on. *)
Lemma high_half (c : N) :
  0x10000 <= c -> c < 0x110000 ->
  N.lor 0xD800 (N.land (N.shiftr (c - 0x10000) 10) 0x3FF) = 0xD800 + (c - 0x10000) / 1024.
Proof.
  intros H1 H2. change 0x3FF with (N.ones 10). rewrite N.land_ones, N.shiftr_div_pow2.
  change (2 ^ 10) with 1024. change 0xD800 with (N.shiftl 54 10).
  rewrite lor_shiftl_low; change (2 ^ 10) with 1024.
  - rewrite N.mod_small; [reflexivity|]. divlia.
  - apply N.mod_lt. discriminate.
Qed.

Lemma low_half (c : N) :
  N.lor 0xDC00 (N.land (c - 0x10000) 0x3FF) = 0xDC00 + (c - 0x10000) mod 1024.
Proof.
  change 0x3FF with (N.ones 10). rewrite N.land_ones.
  change (2 ^ 10) with 1024. change 0xDC00 with (N.shiftl 55 10).
  rewrite lor_shiftl_low; change (2 ^ 10) with 1024; [reflexivity|].
  apply N.mod_lt. discriminate.
Qed.

Lemma join_halves (c : N) :
  0x10000 <= c -> c < 0x110000 ->
  join_surrogates (0xD800 + (c - 0x10000) / 1024) (0xDC00 + (c - 0x10000) mod 1024) = c.
Proof.
  intros H1 H2. unfold join_surrogates.
  replace (0xD800 + (c - 0x10000) / 1024 - 0xD800) with ((c - 0x10000) / 1024) by divlia.
  replace (0xDC00 + (c - 0x10000) mod 1024 - 0xDC00) with ((c - 0x10000) mod 1024) by divlia.
  rewrite lor_shiftl_low; change (2 ^ 10) with 1024.
  - divlia.
  - apply N.mod_lt. discriminate.
Qed.

(** Unfoldings of [scanstring], one per kind of input. *)
Lemma scanstring_plain (c : char) (r : str) :
  (c =? QUOTE) = false -> (c =? BACKSLASH) = false -> (c <? 0x20) = false ->
  scanstring (c :: r) = scan_cons c (scanstring r).
Proof. intros H1 H2 H3. simpl. now rewrite H1, H2, H3. Qed.

Lemma scanstring_short (e c' : char) (r : str) :
  (e =? 0x75) = false -> unescape e = Some c' ->
  scanstring (BACKSLASH :: e :: r) = scan_cons c' (scanstring r).
Proof. intros H1 H2. simpl. now rewrite H1, H2. Qed.

Lemma scanstring_u_eq (h1 h2 h3 h4 : char) (r2 : str) :
  scanstring (BACKSLASH :: 0x75 :: h1 :: h2 :: h3 :: h4 :: r2)
  = match decode_uXXXX h1 h2 h3 h4 with
    | None => Malformed
    | Some uni =>
        match r2 with
        | b :: u :: r3 =>
            if is_high_surrogate uni && (b =? BACKSLASH) && (u =? 0x75) then
              match r3 with
              | g1 :: g2 :: g3 :: g4 :: r4 =>
                  match decode_uXXXX g1 g2 g3 g4 with
                  | None => Malformed
                  | Some uni2 =>
                      if is_low_surrogate uni2
                      then scan_cons (join_surrogates uni uni2) (scanstring r4)
                      else scan_cons uni (scanstring r2)
                  end
              | _ => Malformed
              end
            else scan_cons uni (scanstring r2)
        | _ => scan_cons uni (scanstring r2)
        end
    end.
Proof. reflexivity. Qed.

Lemma scanstring_uXXXX (n : char) (tail : str) :
  n < 0x10000 ->
  is_high_surrogate n = false \/ no_low_escape tail ->
  scanstring (uXXXX n ++ tail) = scan_cons n (scanstring tail).
Proof.
  intros Hn H. unfold uXXXX, hex4. cbn [app].
  rewrite scanstring_u_eq, decode_hex4 by exact Hn.
  destruct tail as [|b [|u r3]]; try reflexivity.
  destruct H as [->|H]; [reflexivity|].
  destruct H as [H|(m & r4 & -> & Hm & Hlow)].
  - now rewrite <- andb_assoc, H, andb_false_r.
  - destruct (is_high_surrogate n && (b =? BACKSLASH) && (u =? 117)); [|reflexivity].
    unfold hex4. cbn [app]. now rewrite decode_hex4, Hlow.
Qed.

Lemma scanstring_pair (c : char) (tail : str) :
  0x10000 <= c -> c < 0x110000 ->
  scanstring (uXXXX (0xD800 + (c - 0x10000) / 1024)
              ++ uXXXX (0xDC00 + (c - 0x10000) mod 1024) ++ tail)
  = scan_cons c (scanstring tail).
Proof.
  intros H1 H2. unfold uXXXX, hex4. cbn [app].
  rewrite scanstring_u_eq, decode_hex4 by divlia.
  replace (is_high_surrogate (0xD800 + (c - 0x10000) / 1024)) with true
    by (symmetry; apply andb_true_iff; split; apply N.leb_le; divlia).
  rewrite !N.eqb_refl. cbn [andb].
  rewrite decode_hex4 by divlia.
  replace (is_low_surrogate (0xDC00 + (c - 0x10000) mod 1024)) with true
    by (symmetry; apply andb_true_iff; split; apply N.leb_le; divlia).
  now rewrite join_halves.
Qed.

Lemma escape_char_case (c : char) : c < 0x110000 -> escape_case c (escape_char c).
Proof.
  intros Hc. unfold escape_char.
  destruct (N.eqb_spec c QUOTE) as [->|H1]; [now apply EscShort|].
  destruct (N.eqb_spec c BACKSLASH) as [->|H2]; [now apply EscShort|].
  destruct ((32 <=? c) && (c <=? 126)) eqn:H3.
  { apply EscPlain; try assumption; now apply N.eqb_neq. }
  destruct (N.eqb_spec c 8) as [->|H4]; [now apply EscShort|].
  destruct (N.eqb_spec c 12) as [->|H5]; [now apply EscShort|].
  destruct (N.eqb_spec c 10) as [->|H6]; [now apply EscShort|].
  destruct (N.eqb_spec c 13) as [->|H7]; [now apply EscShort|].
  destruct (N.eqb_spec c 9) as [->|H8]; [now apply EscShort|].
  destruct (N.ltb_spec c 65536) as [H9|H9]; [now apply EscU|].
  cbv zeta. rewrite high_half, low_half by assumption. now apply EscPair.
Qed.

Lemma escape_no_low (c : char) (more : str) :
  c < 0x110000 -> is_low_surrogate c = false -> no_low_escape (escape_char c ++ more).
Proof.
  intros Hc Hlow. destruct (escape_char_case c Hc) as [H1 H2 _|e He _ _|Hu|Hp].
  - destruct more as [|u r3]; [exact I|]. left. cbn [app]. now rewrite H2.
  - left. cbn [app]. now rewrite He, andb_false_r.
  - right. exists c, more. now repeat split.
  - right. eexists _, _. split; [unfold uXXXX; cbn [app]; reflexivity|].
    split; [divlia|]. apply andb_false_iff. left. apply N.leb_gt. divlia.
Qed.

Lemma escape_char_surrogate (c : char) :
  0xD800 <= c -> c <= 0xDFFF -> escape_char c = uXXXX c.
Proof.
  intros H1 H2. unfold escape_char, QUOTE, BACKSLASH.
  repeat match goal with
         | |- context [?x =? ?y] =>
             replace (x =? y) with false by (symmetry; apply N.eqb_neq; lia)
         end.
  replace ((32 <=? c) && (c <=? 126)) with false
    by (symmetry; apply andb_false_iff; right; apply N.leb_gt; lia).
  replace (c <? 65536) with true by (symmetry; apply N.ltb_lt; lia).
  reflexivity.
Qed.

Lemma scanstring_surrogates (hi lo : char) (tail : str) :
  is_high_surrogate hi = true -> is_low_surrogate lo = true ->
  scanstring (uXXXX hi ++ uXXXX lo ++ tail)
  = scan_cons (join_surrogates hi lo) (scanstring tail).
Proof.
  intros Hh Hl.
  assert (hi < 0x10000 /\ lo < 0x10000) as [B1 B2].
  { unfold is_high_surrogate, is_low_surrogate in *.
    apply andb_true_iff in Hh as [_ Hh]. apply andb_true_iff in Hl as [_ Hl].
    apply N.leb_le in Hh, Hl. lia. }
  unfold uXXXX, hex4. cbn [app].
  rewrite scanstring_u_eq, decode_hex4 by exact B1.
  rewrite Hh, !N.eqb_refl. cbn [andb].
  now rewrite decode_hex4, Hl by exact B2.
Qed.

Lemma normalize_well_formed (s : str) : well_formed s = true -> normalize s = s.
Proof.
  unfold well_formed. intros H. apply andb_true_iff in H as [_ H].
  induction s as [|c s IH]; [reflexivity|].
  cbn [no_surrogate_pair] in H. apply andb_true_iff in H as [Hp Hs].
  cbn [normalize]. destruct s as [|c' s']; [reflexivity|].
  apply negb_true_iff in Hp. rewrite Hp. now rewrite IH.
Qed.

(** Decoding an encoded string gives the string back, normalized,
    whatever follows the closing quote. *)
Lemma scanstring_escape_normalize (n : nat) : forall s rest,
  (List.length s <= n)%nat ->
  forallb is_code_point s = true ->
  scanstring (flat_map escape_char s ++ QUOTE :: rest) = Scanned (normalize s) rest.
Proof.
  induction n as [|n IH]; intros [|c s] rest Hlen H; try reflexivity;
    cbn [List.length] in Hlen; try lia.
  cbn [forallb] in H. apply andb_true_iff in H as [Hc Hs]. apply N.ltb_lt in Hc.
  destruct (is_high_surrogate c
            && match s with c' :: _ => is_low_surrogate c' | [] => false end) eqn:Hpair.
  - apply andb_true_iff in Hpair as [Hh Hl].
    destruct s as [|c' s']; [discriminate|].
    cbn [normalize]. rewrite Hh, Hl. cbn [andb flat_map].
    rewrite (escape_char_surrogate c), (escape_char_surrogate c').
    + rewrite <- !app_assoc, scanstring_surrogates by assumption.
      rewrite IH; [reflexivity|cbn [List.length] in Hlen; lia|].
      now apply forallb_tl in Hs.
    + unfold is_low_surrogate in Hl. char_facts. lia.
    + unfold is_low_surrogate in Hl. char_facts. lia.
    + unfold is_high_surrogate in Hh. char_facts. lia.
    + unfold is_high_surrogate in Hh. char_facts. lia.
  - assert (normalize (c :: s) = c :: normalize s) as ->.
    { cbn [normalize]. destruct s as [|c' s']; [reflexivity|]. now rewrite Hpair. }
    assert (scanstring (flat_map escape_char s ++ QUOTE :: rest)
            = Scanned (normalize s) rest) as IH'
      by (apply IH; [lia|exact Hs]).
    cbn [flat_map]. rewrite <- app_assoc.
    destruct (escape_char_case c Hc) as [E1 E2 E3|e He Hu _|Hu|Hp].
    + rewrite <- app_comm_cons, app_nil_l, scanstring_plain, IH'; try assumption;
        [reflexivity|].
      apply andb_true_iff in E3 as [E3 _]. apply N.leb_le in E3. apply N.ltb_ge. exact E3.
    + cbn [app]. rewrite (scanstring_short e c) by assumption. now rewrite IH'.
    + rewrite scanstring_uXXXX, IH'; [reflexivity|exact Hu|].
      destruct (is_high_surrogate c) eqn:Hh; [right|now left].
      destruct s as [|c' s']; [destruct rest; [exact I|now left]|].
      cbn [flat_map]. rewrite <- app_assoc. apply escape_no_low.
      * cbn [forallb] in Hs. apply andb_true_iff in Hs as [Hs _]. now apply N.ltb_lt in Hs.
      * exact Hpair.
    + rewrite <- app_assoc, scanstring_pair, IH' by assumption. reflexivity.
Qed.

Lemma scanstring_escape (s : str) (rest : str) :
  well_formed s = true ->
  scanstring (flat_map escape_char s ++ QUOTE :: rest) = Scanned s rest.
Proof.
  intros H. rewrite (scanstring_escape_normalize (List.length s)), normalize_well_formed;
    try reflexivity; try exact H.
  unfold well_formed in H. now apply andb_true_iff in H.
Qed.

Lemma escape_char_printable (c : char) : forallb is_printable_ascii (escape_char c) = true.
Proof.
  unfold escape_char.
  repeat match goal with
         | |- context [if ?b then _ else _] => destruct b eqn:?; try reflexivity
         end;
    cbv zeta; unfold uXXXX, hex4; cbn [forallb app]; try assumption;
    rewrite ?hexdigit_printable by (apply N.mod_lt; discriminate); try reflexivity.
  unfold is_printable_ascii. now rewrite Heqb1.
Qed.

Lemma encode_basestring_ascii_printable (s : str) :
  forallb is_printable_ascii (encode_basestring_ascii s) = true.
Proof.
  unfold encode_basestring_ascii. cbn [forallb]. rewrite forallb_app.
  replace (forallb is_printable_ascii (flat_map escape_char s)) with true; [reflexivity|].
  symmetry. induction s as [|c s IH]; [reflexivity|].
  cbn [flat_map]. now rewrite forallb_app, escape_char_printable, IH.
Qed.

Lemma fuel_succ (n : nat) : (2 * n + 2 = S (2 * n + 1))%nat.
Proof. lia. Qed.

(** [json.loads(json.dumps(s))] is [s] normalized, hence [s] itself for
    a well-formed string. *)
Lemma json_loads_dumps_str_normalize (s : str) :
  forallb is_code_point s = true ->
  json_loads (json_dumps None (JStr s)) = Document (JStr (normalize s)).
Proof.
  intros H. unfold json_dumps, json_loads. cbn [iterencode].
  unfold encode_basestring_ascii. rewrite fuel_succ.
  cbn [startswith skip_ws]. cbn.
  now rewrite (scanstring_escape_normalize (List.length s)).
Qed.

Lemma json_loads_dumps_str (s : str) :
  well_formed s = true -> json_loads (json_dumps None (JStr s)) = Document (JStr s).
Proof.
  intros H. rewrite json_loads_dumps_str_normalize, normalize_well_formed;
    try reflexivity; try exact H.
  unfold well_formed in H. now apply andb_true_iff in H.
Qed.

(** ** [update_release_body] *)

Lemma release_fold (escaped_body : str) (lines : list str) : forall acc flag,
  fold_left (release_step escaped_body) lines (acc, flag)
  = (acc ++ map (fun line =>
                   if is_release_body_line line
                   then spaces (List.length (leading_space line))
                          ++ py "releaseBody: " ++ escaped_body ++ [LF]
                   else line) lines,
     flag || existsb is_release_body_line lines).
Proof.
  induction lines as [|l lines IH]; intros acc flag; cbn [fold_left map existsb].
  - now rewrite app_nil_r, orb_false_r.
  - unfold release_step at 2. fold (is_release_body_line l).
    destruct (is_release_body_line l); rewrite IH, <- app_assoc; cbn [app].
    + now rewrite lstrip_length, orb_true_r.
    + reflexivity.
Qed.

Lemma update_release_body_run (p : path) (body : str) (w : world) (text : str) :
  files w p = Some text ->
  update_release_body p body w
  = if existsb is_release_body_line (release_lines text)
    then write_text p
           (List.concat
              (map (fun line => if is_release_body_line line
                                then release_body_line body line else line)
                 (release_lines text))) w
    else (w, Raise (SystemExit [Text "Could not find releaseBody in "; Shown p])).
Proof.
  intros Hf. unfold update_release_body, bind, read_text. rewrite Hf.
  fold (release_lines text). rewrite release_fold. cbn [app orb negb].
  now destruct (existsb is_release_body_line (release_lines text)).
Qed.

Lemma files_write_same (p : path) (data : str) (w : world) :
  files (fst (write_text p data w)) p = Some data.
Proof. cbn. now rewrite path_eqb_refl. Qed.


Lemma spaces_leading (s : str) :
  forallb (N.eqb SPACE) (leading_space s) = true ->
  spaces (List.length (leading_space s)) = leading_space s.
Proof.
  unfold spaces. induction (leading_space s) as [|c l IH];
    cbn [forallb List.length repeat]; [reflexivity|].
  intros H. apply andb_true_iff in H as [Hc Hl]. apply N.eqb_eq in Hc.
  rewrite IH by exact Hl. now subst.
Qed.

(** A line is replaced when the key follows its leading white space. *)
Lemma startswith_iff (s prefix : str) :
  startswith s prefix = true <-> exists rest, s = prefix ++ rest.
Proof.
  revert s. induction prefix as [|c prefix IH]; intros s; cbn [startswith app].
  - split; [now exists s|now destruct s].
  - destruct s as [|c' s]; [split; [discriminate|intros [r H]; discriminate]|].
    cbn [startswith]. rewrite andb_true_iff, IH, N.eqb_eq. split.
    + intros [-> [rest ->]]. now exists rest.
    + intros [rest H]. injection H as -> ->. split; [reflexivity|now exists rest].
Qed.

Lemma is_release_body_line_spec (line : str) :
  is_release_body_line line = true
  <-> exists rest, line = leading_space line ++ py "releaseBody:" ++ rest.
Proof.
  unfold is_release_body_line. rewrite startswith_iff. split.
  - intros [rest H]. exists rest. rewrite <- H. apply lstrip_split.
  - intros [rest H]. exists rest.
    apply (app_inv_head (leading_space line)). rewrite <- H. symmetry. apply lstrip_split.
Qed.

(** C5.  [update_release_body] on a workflow file.  If no line has the
    key [releaseBody:] after its leading white space, the call raises
    [SystemExit] and writes nothing.  Otherwise it succeeds and the file
    is rewritten line by line: each line with the key becomes as many
    spaces as the line had leading white-space characters, the key, a
    space, the JSON rendering of the text and a line feed; every other
    line is kept.  The leading white space itself is kept only when it
    consists of spaces. *)
Theorem update_release_body_replaces (p : path) (body : str) (w : world) (text : str) :
  files w p = Some text ->
  if existsb is_release_body_line (release_lines text)
  then
    exists w' new_lines,
      update_release_body p body w = (w', Ok tt)
      /\ files w' p = Some (List.concat new_lines)
      /\ (forall q, q <> p -> files w' q = files w q)
      /\ List.length new_lines = List.length (release_lines text)
      /\ (forall k line, nth_error (release_lines text) k = Some line ->
            if is_release_body_line line
            then
              nth_error new_lines k
              = Some (spaces (List.length (leading_space line))
                        ++ py "releaseBody: " ++ json_dumps None (JStr body) ++ [LF])
              /\ (forallb (N.eqb SPACE) (leading_space line) = true ->
                  nth_error new_lines k
                  = Some (leading_space line
                            ++ py "releaseBody: " ++ json_dumps None (JStr body) ++ [LF]))
            else nth_error new_lines k = Some line)
  else
    update_release_body p body w
    = (w, Raise (SystemExit [Text "Could not find releaseBody in "; Shown p])).
Proof.
  intros Hf. rewrite (update_release_body_run _ _ _ _ Hf).
  destruct (existsb is_release_body_line (release_lines text)); [|reflexivity].
  eexists _, _. split; [reflexivity|]. cbn [write_text files fst].
  rewrite path_eqb_refl. split; [reflexivity|]. split; [|split].
  - intros q Hq. rewrite path_eqb_neq; congruence.
  - apply length_map.
  - intros k line Hk. rewrite nth_error_map, Hk. cbn [option_map].
    destruct (is_release_body_line line); [|reflexivity].
    split; [reflexivity|]. intros Hsp. unfold release_body_line.
    now rewrite (spaces_leading _ Hsp).
Qed.

Lemma update_release_body_replaces_witness :
  exists w' new_lines,
    update_release_body RELEASE_WORKFLOW notes_quoted
      (one_file RELEASE_WORKFLOW workflow_spaces) = (w', Ok tt)
    /\ files w' RELEASE_WORKFLOW = Some (List.concat new_lines)
    /\ nth_error new_lines 1
       = Some (py "    releaseBody: " ++ json_dumps None (JStr notes_quoted) ++ [LF]).
Proof.
  pose proof (update_release_body_replaces RELEASE_WORKFLOW notes_quoted
                (one_file RELEASE_WORKFLOW workflow_spaces) workflow_spaces eq_refl) as H.
  change (existsb is_release_body_line (release_lines workflow_spaces)) with true in H.
  destruct H as (w' & new_lines & Hrun & Hfile & _ & _ & Hlines).
  exists w', new_lines. split; [exact Hrun|]. split; [exact Hfile|].
  exact (proj1 (Hlines 1%nat (pyq "    releaseBody: 'old notes'" ++ [LF]) eq_refl)).
Defined.

(** The leading white space is not always kept: for a key indented by a
    tab, the line written starts with a space. *)
Lemma update_release_body_tab_not_kept :
  files (fst (update_release_body RELEASE_WORKFLOW (py "new notes")
                (one_file RELEASE_WORKFLOW workflow_tab))) RELEASE_WORKFLOW
  = Some (SPACE :: py "releaseBody: " ++ json_dumps None (JStr (py "new notes")) ++ [LF])
  /\ files (fst (update_release_body RELEASE_WORKFLOW (py "new notes")
                   (one_file RELEASE_WORKFLOW workflow_tab))) RELEASE_WORKFLOW
     <> Some (leading_space workflow_tab
                ++ py "releaseBody: " ++ json_dumps None (JStr (py "new notes")) ++ [LF]).
Proof. split; [reflexivity|]. vm_compute. discriminate. Qed.

Lemma forallb_impl {A} (p q : A -> bool) (l : list A) :
  (forall a, p a = true -> q a = true) -> forallb p l = true -> forallb q l = true.
Proof.
  intros H. induction l as [|a l IH]; cbn [forallb]; [reflexivity|].
  intros E. apply andb_true_iff in E as [Ea El]. now rewrite (H a Ea), IH.
Qed.

Lemma printable_not_lf (c : char) : is_printable_ascii c = true -> negb (c =? LF) = true.
Proof.
  unfold is_printable_ascii. intros H. apply andb_true_iff in H as [H _].
  apply N.leb_le in H. apply negb_true_iff, N.eqb_neq. unfold LF. lia.
Qed.

Lemma readlines_from_single (s : str) : forall cur,
  forallb (fun c => negb (c =? LF)) s = true ->
  readlines_from cur (s ++ [LF]) = [rev cur ++ s ++ [LF]].
Proof.
  induction s as [|c s IH]; intros cur H.
  - reflexivity.
  - cbn [forallb] in H. apply andb_true_iff in H as [Hc Hs].
    apply negb_true_iff in Hc. cbn [app readlines_from]. rewrite Hc, IH by exact Hs.
    cbn [rev]. now rewrite <- app_assoc.
Qed.

Lemma spaces_printable (n : nat) : forallb is_printable_ascii (spaces n) = true.
Proof. induction n as [|n IH]; [reflexivity|]. cbn. exact IH. Qed.

(** The line written for the key is one line to whoever reads the file
    again. *)
Lemma release_body_line_single (n : nat) (body : str) :
  readlines (spaces n ++ py "releaseBody: " ++ json_dumps None (JStr body) ++ [LF])
  = [spaces n ++ py "releaseBody: " ++ json_dumps None (JStr body) ++ [LF]].
Proof.
  unfold readlines. rewrite !app_assoc, readlines_from_single; [reflexivity|].
  apply forallb_impl with (p := is_printable_ascii); [apply printable_not_lf|].
  rewrite !forallb_app, spaces_printable.
  unfold json_dumps. cbn [iterencode]. now rewrite encode_basestring_ascii_printable.
Qed.

(** Text decoded from bytes is well formed. *)
Lemma decoded_well_formed (s : str) :
  forallb (fun c => is_code_point c && negb (is_high_surrogate c)) s = true ->
  well_formed s = true.
Proof.
  unfold well_formed. induction s as [|c s IH]; [reflexivity|].
  cbn [forallb no_surrogate_pair]. intros H.
  apply andb_true_iff in H as [Hc Hs]. apply andb_true_iff in Hc as [Hc Hh].
  apply IH in Hs. apply andb_true_iff in Hs as [Hs1 Hs2].
  rewrite Hc, Hs1, Hs2. apply negb_true_iff in Hh. now rewrite Hh.
Qed.

(** C3.  For release notes as the operator can type them (well-formed
    text: code points, no high surrogate directly followed by a low
    one), quotes and line feeds included, [update_release_body] on a
    workflow with a [releaseBody:] line writes, for each such line, the
    key followed by the JSON rendering of the notes.  The rendering is
    printable ASCII throughout, so the line written is a single line,
    and decoding the rendering with [json.loads] gives the notes back. *)
Theorem release_body_round_trip (p : path) (body : str) (w : world) (text : str) :
  files w p = Some text ->
  existsb is_release_body_line (release_lines text) = true ->
  well_formed body = true ->
  exists w' new_lines,
    update_release_body p body w = (w', Ok tt)
    /\ files w' p = Some (List.concat new_lines)
    /\ (forall k line, nth_error (release_lines text) k = Some line ->
          is_release_body_line line = true ->
          exists indent new_line,
            nth_error new_lines k = Some new_line
            /\ new_line = spaces indent ++ py "releaseBody: " ++ escape_for_yaml body ++ [LF]
            /\ readlines new_line = [new_line])
    /\ forallb is_printable_ascii (escape_for_yaml body) = true
    /\ json_loads (escape_for_yaml body) = Document (JStr body).
Proof.
  intros Hf He Hb. rewrite (update_release_body_run _ _ _ _ Hf), He.
  eexists _, _. split; [reflexivity|].
  split; [apply files_write_same|]. split; [|split].
  - intros k line Hk Hl. rewrite nth_error_map, Hk. cbn [option_map]. rewrite Hl.
    eexists _, _. split; [reflexivity|]. split; [reflexivity|].
    apply release_body_line_single.
  - apply encode_basestring_ascii_printable.
  - now apply json_loads_dumps_str.
Qed.

Lemma release_body_round_trip_witness :
  exists w' new_lines,
    update_release_body RELEASE_WORKFLOW notes_quoted
      (one_file RELEASE_WORKFLOW workflow_spaces) = (w', Ok tt)
    /\ files w' RELEASE_WORKFLOW = Some (List.concat new_lines)
    /\ json_loads (escape_for_yaml notes_quoted) = Document (JStr notes_quoted).
Proof.
  destruct (release_body_round_trip RELEASE_WORKFLOW notes_quoted
              (one_file RELEASE_WORKFLOW workflow_spaces) workflow_spaces
              eq_refl eq_refl eq_refl)
    as (w' & new_lines & Hrun & Hfile & _ & _ & Hloads).
  exists w', new_lines. split; [exact Hrun|]. split; [exact Hfile|exact Hloads].
Defined.

(** Outside well-formed text the round trip can fail: two surrogate
    code points that form a pair are written like the one character
    they encode, and decode to it. *)
Example surrogate_pair_joined :
  json_loads (escape_for_yaml [0xD83D; 0xDE00]) = Document (JStr [0x1F600]).
Proof. reflexivity. Qed.

(** ** The JSON scanner: progress, fuel and totality *)

Lemma scan_cons_inv {A} (a : A) (r : scan (list A)) (t : list A) (rest : str) :
  scan_cons a r = Scanned t rest -> exists t', r = Scanned t' rest /\ t = a :: t'.
Proof. destruct r; cbn; intros H; try discriminate. injection H as <- <-. eauto. Qed.

Lemma scan_cons_fuel {A} (a : A) (r : scan (list A)) :
  scan_cons a r = OutOfFuel <-> r = OutOfFuel.
Proof. destruct r; cbn; split; congruence. Qed.

Lemma scan_bind_inv {A B} (r : scan A) (k : A -> str -> scan B) (b : B) (rest : str) :
  scan_bind r k = Scanned b rest ->
  exists a rest', r = Scanned a rest' /\ k a rest' = Scanned b rest.
Proof. destruct r; cbn; intros H; try discriminate. eauto. Qed.

Lemma scan_map_inv {A B} (f : A -> B) (r : scan A) (b : B) (rest : str) :
  scan_map f r = Scanned b rest -> exists a, r = Scanned a rest /\ b = f a.
Proof.
  unfold scan_map. intros H. apply scan_bind_inv in H as (a & rest' & -> & H).
  injection H as <- <-. eauto.
Qed.

Lemma scan_map_fuel {A B} (f : A -> B) (r : scan A) :
  scan_map f r = OutOfFuel <-> r = OutOfFuel.
Proof. destruct r; cbn; split; congruence. Qed.

Lemma skip_ws_length (s : str) : (List.length (skip_ws s) <= List.length s)%nat.
Proof.
  induction s as [|c s IH]; cbn [skip_ws]; [lia|].
  destruct (is_json_ws c); cbn [List.length]; lia.
Qed.

Lemma scanstring_length (s : str) : forall t rest,
  scanstring s = Scanned t rest -> (List.length rest < List.length s)%nat.
Proof.
  functional induction (scanstring s); intros t rest H; try discriminate;
    try (apply scan_cons_inv in H as (t' & H & _); apply IHs0 in H;
         cbn [List.length] in *; lia).
  injection H as <- <-. cbn [List.length]. lia.
Qed.

Lemma scanstring_fuel (s : str) : scanstring s <> OutOfFuel.
Proof.
  functional induction (scanstring s); try discriminate;
    intros H; apply scan_cons_fuel in H; contradiction.
Qed.

Lemma span_digits_app (s : str) : forall ds rest,
  span_digits s = (ds, rest) -> s = ds ++ rest.
Proof.
  induction s as [|c s IH]; cbn [span_digits]; intros ds rest H.
  - now injection H as <- <-.
  - destruct (is_digit c).
    + destruct (span_digits s) as [ds' rest'] eqn:E. injection H as <- <-.
      cbn [app]. f_equal. now apply IH.
    + now injection H as <- <-.
Qed.

Lemma match_number_length (s : str) (v : json) (rest : str) :
  match_number s = Scanned v rest -> (List.length rest < List.length s)%nat.
Proof.
  unfold match_number.
  set (negative := match s with c :: _ => c =? 0x2D | [] => false end).
  set (s1 := if negative then tl s else s).
  assert (List.length s1 <= List.length s)%nat as Hs1.
  { subst s1. destruct negative; [|lia]. destruct s; cbn; lia. }
  destruct s1 as [|d r] eqn:E1; [discriminate|].
  destruct (if d =? 0x30 then ([d], r)
            else if is_digit d then span_digits (d :: r) else ([], d :: r))
    as [ds rest'] eqn:E.
  destruct ds as [|d0 ds]; [discriminate|].
  destruct (has_frac_or_exp rest'); [discriminate|].
  intros H. injection H as _ <-.
  assert (d :: r = (d0 :: ds) ++ rest') as Happ.
  { destruct (d =? 0x30); [now injection E as <- <- <-|].
    destruct (is_digit d); [now apply span_digits_app|discriminate]. }
  apply (f_equal (@List.length _)) in Happ. rewrite length_app in Happ.
  cbn [List.length] in *. lia.
Qed.

Lemma match_number_fuel (s : str) : match_number s <> OutOfFuel.
Proof.
  unfold match_number.
  destruct (if match s with c :: _ => c =? 0x2D | [] => false end then tl s else s)
    as [|d r]; [discriminate|].
  destruct (if d =? 0x30 then ([d], r)
            else if is_digit d then span_digits (d :: r) else ([], d :: r))
    as [[|d0 ds] rest']; [discriminate|].
  destruct (has_frac_or_exp rest'); discriminate.
Qed.

Lemma startswith_skipn (s prefix : str) :
  startswith s prefix = true -> s = prefix ++ skipn (List.length prefix) s.
Proof.
  intros H. apply startswith_iff in H as [rest ->].
  now rewrite skipn_app, skipn_all, Nat.sub_diag.
Qed.

Lemma scan_scalar_length (s : str) (v : json) (rest : str) :
  scan_scalar s = Scanned v rest -> (List.length rest < List.length s)%nat.
Proof.
  unfold scan_scalar.
  destruct (startswith s (py "null")) eqn:E1.
  { intros H. injection H as _ <-. apply startswith_skipn in E1.
    rewrite E1 at 2. rewrite length_app. cbn. lia. }
  destruct (startswith s (py "true")) eqn:E2.
  { intros H. injection H as _ <-. apply startswith_skipn in E2.
    rewrite E2 at 2. rewrite length_app. cbn. lia. }
  destruct (startswith s (py "false")) eqn:E3.
  { intros H. injection H as _ <-. apply startswith_skipn in E3.
    rewrite E3 at 2. rewrite length_app. cbn. lia. }
  destruct (match_number s) eqn:E; try discriminate.
  - intros H. injection H as <- <-. now apply match_number_length in E.
  - destruct (_ || _); discriminate.
Qed.

Lemma scan_scalar_fuel (s : str) : scan_scalar s <> OutOfFuel.
Proof.
  unfold scan_scalar.
  destruct (startswith s (py "null")); [discriminate|].
  destruct (startswith s (py "true")); [discriminate|].
  destruct (startswith s (py "false")); [discriminate|].
  pose proof (match_number_fuel s) as H.
  destruct (match_number s); try discriminate; [|congruence].
  destruct (_ || _); discriminate.
Qed.

(** Every scanning step that succeeds consumes something. *)
Lemma scan_progress (fuel : nat) :
  (forall s v rest, scan_once fuel s = Scanned v rest ->
                    (List.length rest < List.length s)%nat)
  /\ (forall s v rest, scan_items fuel s = Scanned v rest ->
                       (List.length rest < List.length s)%nat)
  /\ (forall s v rest, scan_members fuel s = Scanned v rest ->
                       (List.length rest < List.length s)%nat).
Proof.
  induction fuel as [|fuel (IH1 & IH2 & IH3)]; [repeat split; discriminate|].
  repeat split; intros s v rest H.
  - cbn [scan_once] in H. destruct s as [|c r]; [discriminate|].
    destruct (c =? QUOTE).
    { apply scan_map_inv in H as (t & H & _). apply scanstring_length in H.
      cbn [List.length]. lia. }
    destruct (c =? 0x7B).
    { pose proof (skip_ws_length r) as L. destruct (skip_ws r) as [|c1 r1]; [discriminate|].
      cbn [List.length] in *. destruct (c1 =? 0x7D); [injection H as _ <-; lia|].
      destruct (c1 =? QUOTE); [|discriminate].
      apply scan_map_inv in H as (t & H & _). apply IH3 in H. lia. }
    destruct (c =? 0x5B).
    { pose proof (skip_ws_length r) as L. destruct (skip_ws r) as [|c1 r1]; [discriminate|].
      cbn [List.length] in *. destruct (c1 =? 0x5D); [injection H as _ <-; lia|].
      apply scan_map_inv in H as (t & H & _). apply IH2 in H. cbn [List.length] in H. lia. }
    now apply scan_scalar_length in H.
  - cbn [scan_items] in H. apply scan_bind_inv in H as (value & rest1 & H1 & H).
    apply IH1 in H1. pose proof (skip_ws_length rest1) as L.
    destruct (skip_ws rest1) as [|c r]; [discriminate|]. cbn [List.length] in L.
    destruct (c =? 0x5D); [injection H as _ <-; lia|].
    destruct (c =? 0x2C); [|discriminate].
    apply scan_cons_inv in H as (t & H & _). apply IH2 in H.
    pose proof (skip_ws_length r). lia.
  - cbn [scan_members] in H. apply scan_bind_inv in H as (key & rest1 & H1 & H).
    apply scanstring_length in H1. pose proof (skip_ws_length rest1) as L.
    destruct (skip_ws rest1) as [|c r]; [discriminate|]. cbn [List.length] in L.
    destruct (c =? 0x3A); [|discriminate].
    apply scan_bind_inv in H as (value & rest2 & H2 & H).
    apply IH1 in H2. pose proof (skip_ws_length r) as L2.
    pose proof (skip_ws_length rest2) as L3.
    destruct (skip_ws rest2) as [|c1 r1]; [discriminate|]. cbn [List.length] in L3.
    destruct (c1 =? 0x7D); [injection H as _ <-; lia|].
    destruct (c1 =? 0x2C); [|discriminate].
    pose proof (skip_ws_length r1) as L4.
    destruct (skip_ws r1) as [|c2 r2]; [discriminate|]. cbn [List.length] in L4.
    destruct (c2 =? QUOTE); [|discriminate].
    apply scan_cons_inv in H as (t & H & _). apply IH3 in H. lia.
Qed.

(** More fuel does not change an outcome reached without running out. *)
Lemma scan_fuel_mono (fuel : nat) :
  (forall s fuel', (fuel <= fuel')%nat -> scan_once fuel s <> OutOfFuel ->
                   scan_once fuel' s = scan_once fuel s)
  /\ (forall s fuel', (fuel <= fuel')%nat -> scan_items fuel s <> OutOfFuel ->
                      scan_items fuel' s = scan_items fuel s)
  /\ (forall s fuel', (fuel <= fuel')%nat -> scan_members fuel s <> OutOfFuel ->
                      scan_members fuel' s = scan_members fuel s).
Proof.
  induction fuel as [|fuel (IH1 & IH2 & IH3)]; [repeat split; intros s f' _ H; now destruct H|].
  repeat split; intros s [|f'] Hle H; try lia; apply le_S_n in Hle.
  - cbn [scan_once] in *. destruct s as [|c r]; [reflexivity|].
    destruct (c =? QUOTE); [reflexivity|].
    destruct (c =? 0x7B).
    { destruct (skip_ws r) as [|c1 r1]; [reflexivity|].
      destruct (c1 =? 0x7D); [reflexivity|]. destruct (c1 =? QUOTE); [|reflexivity].
      rewrite IH3; [reflexivity|exact Hle|]. intros E. apply H. now rewrite E. }
    destruct (c =? 0x5B); [|reflexivity].
    destruct (skip_ws r) as [|c1 r1]; [reflexivity|].
    destruct (c1 =? 0x5D); [reflexivity|].
    rewrite IH2; [reflexivity|exact Hle|]. intros E. apply H. now rewrite E.
  - cbn [scan_items] in *.
    rewrite IH1; [|exact Hle|intros E; apply H; now rewrite E].
    destruct (scan_once fuel s) as [value rest| | |]; try reflexivity. cbn [scan_bind] in *.
    destruct (skip_ws rest) as [|c r]; [reflexivity|].
    destruct (c =? 0x5D); [reflexivity|]. destruct (c =? 0x2C); [|reflexivity].
    rewrite IH2; [reflexivity|exact Hle|]. intros E. apply H. now rewrite E.
  - cbn [scan_members] in *.
    destruct (scanstring s) as [key rest| | |]; try reflexivity. cbn [scan_bind] in *.
    destruct (skip_ws rest) as [|c r]; [reflexivity|].
    destruct (c =? 0x3A); [|reflexivity].
    rewrite IH1; [|exact Hle|intros E; apply H; now rewrite E].
    destruct (scan_once fuel (skip_ws r)) as [value rest1| | |]; try reflexivity.
    cbn [scan_bind] in *.
    destruct (skip_ws rest1) as [|c1 r1]; [reflexivity|].
    destruct (c1 =? 0x7D); [reflexivity|]. destruct (c1 =? 0x2C); [|reflexivity].
    destruct (skip_ws r1) as [|c2 r2]; [reflexivity|].
    destruct (c2 =? QUOTE); [|reflexivity].
    rewrite IH3; [reflexivity|exact Hle|]. intros E. apply H. now rewrite E.
Qed.

(** Twice the length of the text, and a little, is fuel enough. *)
Lemma scan_fuel_enough (fuel : nat) :
  (forall s, (2 * List.length s + 1 <= fuel)%nat -> scan_once fuel s <> OutOfFuel)
  /\ (forall s, (2 * List.length s + 2 <= fuel)%nat -> scan_items fuel s <> OutOfFuel)
  /\ (forall s, (2 * List.length s + 1 <= fuel)%nat -> scan_members fuel s <> OutOfFuel).
Proof.
  induction fuel as [|fuel (IH1 & IH2 & IH3)]; [repeat split; intros; lia|].
  repeat split; intros s Hf.
  - cbn [scan_once]. destruct s as [|c r]; [discriminate|]. cbn [List.length] in Hf.
    destruct (c =? QUOTE).
    { rewrite scan_map_fuel. apply scanstring_fuel. }
    destruct (c =? 0x7B).
    { pose proof (skip_ws_length r) as L. destruct (skip_ws r) as [|c1 r1]; [discriminate|].
      cbn [List.length] in L. destruct (c1 =? 0x7D); [discriminate|].
      destruct (c1 =? QUOTE); [|discriminate].
      rewrite scan_map_fuel. apply IH3. lia. }
    destruct (c =? 0x5B); [|apply scan_scalar_fuel].
    pose proof (skip_ws_length r) as L. destruct (skip_ws r) as [|c1 r1]; [discriminate|].
    destruct (c1 =? 0x5D); [discriminate|].
    rewrite scan_map_fuel. apply IH2. lia.
  - cbn [scan_items]. pose proof (IH1 s ltac:(lia)) as H1.
    destruct (scan_once fuel s) as [value rest| | |] eqn:E; try discriminate; [|congruence].
    cbn [scan_bind]. apply (proj1 (scan_progress fuel)) in E.
    pose proof (skip_ws_length rest) as L.
    destruct (skip_ws rest) as [|c r]; [discriminate|]. cbn [List.length] in L.
    destruct (c =? 0x5D); [discriminate|]. destruct (c =? 0x2C); [|discriminate].
    rewrite scan_cons_fuel. apply IH2. pose proof (skip_ws_length r). lia.
  - cbn [scan_members]. pose proof (scanstring_fuel s) as H0.
    destruct (scanstring s) as [key rest| | |] eqn:E; try discriminate; [|congruence].
    cbn [scan_bind]. apply scanstring_length in E.
    pose proof (skip_ws_length rest) as L.
    destruct (skip_ws rest) as [|c r]; [discriminate|]. cbn [List.length] in L.
    destruct (c =? 0x3A); [|discriminate].
    pose proof (skip_ws_length r) as L2.
    pose proof (IH1 (skip_ws r) ltac:(lia)) as H1.
    destruct (scan_once fuel (skip_ws r)) as [value rest1| | |] eqn:E1;
      try discriminate; [|congruence].
    cbn [scan_bind]. apply (proj1 (scan_progress fuel)) in E1.
    pose proof (skip_ws_length rest1) as L3.
    destruct (skip_ws rest1) as [|c1 r1]; [discriminate|]. cbn [List.length] in L3.
    destruct (c1 =? 0x7D); [discriminate|]. destruct (c1 =? 0x2C); [|discriminate].
    pose proof (skip_ws_length r1) as L4.
    destruct (skip_ws r1) as [|c2 r2]; [discriminate|]. cbn [List.length] in L4.
    destruct (c2 =? QUOTE); [|discriminate].
    rewrite scan_cons_fuel. apply IH3. lia.
Qed.

(** [json_loads] never runs out of fuel: its outcome is the outcome of
    the scanner with any larger allowance. *)
Lemma scan_once_enough (s : str) (fuel : nat) (v : json) (rest : str) :
  scan_once fuel s = Scanned v rest ->
  forall fuel', (2 * List.length s + 1 <= fuel')%nat -> scan_once fuel' s = Scanned v rest.
Proof.
  intros H fuel' Hf. destruct (Nat.le_ge_cases fuel fuel') as [L|L].
  - rewrite (proj1 (scan_fuel_mono fuel) s fuel' L); [exact H|]. now rewrite H.
  - rewrite <- (proj1 (scan_fuel_mono fuel') s fuel L); [exact H|].
    now apply (proj1 (scan_fuel_enough fuel')).
Qed.

Lemma json_loads_total (text : str) :
  scan_once (2 * List.length text + 2) (skip_ws text) <> OutOfFuel.
Proof.
  apply (proj1 (scan_fuel_enough _)). pose proof (skip_ws_length text). lia.
Qed.

(** ** JSON numbers *)

Lemma uint_of_digits_of_uint (u : Decimal.uint) : uint_of_digits (digits_of_uint u) = u.
Proof. induction u; cbn; congruence. Qed.

Lemma digits_of_uint_digits (u : Decimal.uint) : forallb is_digit (digits_of_uint u) = true.
Proof. induction u; cbn; auto. Qed.

Lemma to_uint_normal (m : N) : Decimal.unorm (N.to_uint m) = N.to_uint m.
Proof. rewrite <- DecimalN.Unsigned.to_of. now rewrite DecimalN.Unsigned.of_to. Qed.

(** A leading zero is the whole numeral. *)
Lemma to_uint_leading_zero (m : N) (u : Decimal.uint) :
  N.to_uint m = Decimal.D0 u -> u = Decimal.Nil.
Proof.
  intros H. pose proof (to_uint_normal m) as E. rewrite H, DecimalFacts.unorm_D0 in E.
  destruct (Decimal.uint_eq_dec u Decimal.Nil) as [->|Hn]; [reflexivity|].
  pose proof (DecimalFacts.nb_digits_unorm u Hn) as L. rewrite E in L. cbn in L. lia.
Qed.

Lemma to_uint_nonnil (m : N) : N.to_uint m <> Decimal.Nil.
Proof.
  rewrite <- to_uint_normal. apply DecimalFacts.unorm_nonnil.
Qed.

Lemma span_digits_all (ds rest : str) :
  forallb is_digit ds = true ->
  match rest with c :: _ => is_digit c = false | [] => True end ->
  span_digits (ds ++ rest) = (ds, rest).
Proof.
  intros Hd Hr. induction ds as [|d ds IH]; cbn [app].
  - destruct rest as [|c r]; [reflexivity|]. cbn [span_digits]. now rewrite Hr.
  - cbn [forallb] in Hd. apply andb_true_iff in Hd as [Hd Hds].
    cbn [span_digits]. now rewrite Hd, IH.
Qed.

Lemma delimited_not_digit (rest : str) :
  delimited rest -> match rest with c :: _ => is_digit c = false | [] => True end.
Proof. destruct rest as [|c r]; [trivial|]. now intros [->| ->]. Qed.

Lemma delimited_no_frac (rest : str) : delimited rest -> has_frac_or_exp rest = false.
Proof.
  destruct rest as [|c [|d r]]; try reflexivity. now intros [->| ->].
Qed.

(** The shape of the digits of a number. *)
Lemma to_uint_digits (m : N) :
  exists d ds,
    digits_of_uint (N.to_uint m) = d :: ds
    /\ is_digit d = true
    /\ forallb is_digit ds = true
    /\ ((d =? 0x30) = true -> ds = [] /\ m = 0).
Proof.
  pose proof (digits_of_uint_digits (N.to_uint m)) as Hall.
  pose proof (to_uint_nonnil m) as Hnn.
  pose proof (to_uint_leading_zero m) as Hz.
  pose proof (DecimalN.Unsigned.of_to m) as Hof.
  destruct (N.to_uint m) as [|u|u|u|u|u|u|u|u|u|u]; [now destruct Hnn| ..];
    cbn [digits_of_uint forallb] in *; apply andb_true_iff in Hall as [H1 H2];
    eexists _, _; (split; [reflexivity|]); (split; [exact H1|]); (split; [exact H2|]);
    try discriminate.
  intros _. rewrite (Hz u eq_refl) in *. split; [reflexivity|]. now rewrite <- Hof.
Qed.

Lemma match_number_digits (negative : bool) (m : N) (rest : str) :
  delimited rest ->
  (negative = true -> m <> 0) ->
  match_number ((if negative then [0x2D] else @nil char) ++ digits_of_uint (N.to_uint m) ++ rest)
  = Scanned (JInt (if negative then - Z.of_N m else Z.of_N m)%Z) rest.
Proof.
  intros Hr Hneg.
  destruct (to_uint_digits m) as (d & ds & E & Hd & Hds & Hzero).
  assert (int_of_digits negative (d :: ds)
          = (if negative then - Z.of_N m else Z.of_N m)%Z) as Hval.
  { unfold int_of_digits. rewrite <- E, uint_of_digits_of_uint.
    now rewrite DecimalN.Unsigned.of_to. }
  assert ((d =? 0x2D) = false) as Hminus.
  { unfold is_digit in Hd. apply andb_true_iff in Hd as [H1 H2].
    apply N.leb_le in H1. apply N.eqb_neq. lia. }
  unfold match_number. rewrite E.
  destruct negative; cbn [app tl]; rewrite ?N.eqb_refl, ?Hminus; cbn [tl].
  - destruct (d =? 0x30) eqn:E0.
    + destruct (Hzero eq_refl) as [_ Hm]. now destruct (Hneg eq_refl).
    + rewrite Hd. change (d :: ds ++ rest) with ((d :: ds) ++ rest).
      rewrite span_digits_all;
        [ rewrite (delimited_no_frac _ Hr), Hval; reflexivity
        | cbn [forallb]; now rewrite Hd, Hds
        | now apply delimited_not_digit ].
  - destruct (d =? 0x30) eqn:E0.
    + destruct (Hzero eq_refl) as [-> Hm]. cbn [app].
      rewrite (delimited_no_frac _ Hr), <- Hval. reflexivity.
    + rewrite Hd. change (d :: ds ++ rest) with ((d :: ds) ++ rest).
      rewrite span_digits_all;
        [ rewrite (delimited_no_frac _ Hr), Hval; reflexivity
        | cbn [forallb]; now rewrite Hd, Hds
        | now apply delimited_not_digit ].
Qed.

Lemma int_repr_digits (n : Z) :
  exists (negative : bool) (m : N),
    int_repr n = (if negative then [0x2D] else @nil char) ++ digits_of_uint (N.to_uint m)
    /\ n = (if negative then - Z.of_N m else Z.of_N m)%Z
    /\ (negative = true -> m <> 0).
Proof.
  destruct n as [|p|p].
  - exists false, 0. repeat split. discriminate.
  - exists false, (Npos p). repeat split. discriminate.
  - exists true, (Npos p). repeat split. discriminate.
Qed.

Lemma match_number_int_repr (n : Z) (rest : str) :
  delimited rest -> match_number (int_repr n ++ rest) = Scanned (JInt n) rest.
Proof.
  intros Hr. destruct (int_repr_digits n) as (negative & m & -> & Hn & Hneg).
  rewrite <- app_assoc, match_number_digits by assumption. now rewrite <- Hn.
Qed.

(** ** JSON documents: decoding what was encoded *)

(** Induction over documents, with the hypothesis for every item of a
    list and every value of an object. *)
Lemma json_ind' (P : json -> Prop) :
  P JNull -> (forall b, P (JBool b)) -> (forall n, P (JInt n)) -> (forall s, P (JStr s)) ->
  (forall items, Forall P items -> P (JList items)) ->
  (forall members, Forall (fun kv => P (snd kv)) members -> P (JDict members)) ->
  forall o, P o.
Proof.
  intros Hnull Hbool Hint Hstr Hlist Hdict. fix IH 1.
  intros [ |b|n|s|items|members].
  - exact Hnull.
  - apply Hbool.
  - apply Hint.
  - apply Hstr.
  - apply Hlist. induction items as [|x xs IHxs]; constructor; [apply IH|exact IHxs].
  - apply Hdict. induction members as [|[k v] ms IHms]; constructor; [apply IH|exact IHms].
Qed.

Lemma value_start_facts (c : char) :
  value_start c = true ->
  is_json_ws c = false /\ (c =? 0x5D) = false /\ (c =? 0x7D) = false
  /\ (c =? 0xFEFF) = false.
Proof.
  unfold value_start, is_digit. intros H. char_facts;
    try (repeat split; reflexivity).
  unfold is_json_ws. repeat split;
    repeat (apply orb_false_iff; split); apply N.eqb_neq; lia.
Qed.

Lemma int_repr_head (n : Z) :
  exists c t, int_repr n = c :: t /\ ((c =? 0x2D) || is_digit c) = true.
Proof.
  destruct (int_repr_digits n) as (negative & m & -> & _ & _).
  destruct (to_uint_digits m) as (d & ds & -> & Hd & _ & _).
  destruct negative; cbn [app]; eexists _, _; (split; [reflexivity|]).
  - reflexivity.
  - now rewrite Hd, orb_true_r.
Qed.

Lemma iterencode_head (indent : option nat) (level : nat) (o : json) :
  exists c t, iterencode indent level o = c :: t /\ value_start c = true.
Proof.
  destruct o as [ |[|]|n|s|[|x xs]|[|kv ms]]; cbn [iterencode];
    try (eexists _, _; split; [reflexivity|reflexivity]).
  destruct (int_repr_head n) as (c & t & -> & H). exists c, t. split; [reflexivity|].
  unfold value_start. apply orb_true_iff in H as [H|H]; rewrite H;
    now rewrite ?orb_true_r.
Qed.

Lemma skip_ws_nonws (s : str) :
  match s with c :: _ => is_json_ws c = false | [] => True end -> skip_ws s = s.
Proof. destruct s as [|c r]; [reflexivity|]. cbn [skip_ws]. now intros ->. Qed.

Lemma skip_ws_spaces (n : nat) (s : str) : skip_ws (spaces n ++ s) = skip_ws s.
Proof. induction n as [|n IH]; [reflexivity|exact IH]. Qed.

Lemma skip_ws_newline_indent (n level : nat) (s : str) :
  skip_ws (newline_indent (Some n) level ++ s) = skip_ws s.
Proof. unfold newline_indent. cbn [app skip_ws]. apply skip_ws_spaces. Qed.

(** ** Dictionaries *)

Lemma dict_set_fresh (k : str) (v : json) (d : dict) :
  ~ In k (map fst d) -> dict_set k v d = d ++ [(k, v)].
Proof.
  induction d as [|[k' v'] d IH]; cbn [dict_set map fst In app]; intros H; [reflexivity|].
  destruct (str_eqb k' k) eqn:E.
  - apply str_eqb_eq in E. subst. tauto.
  - rewrite IH; [reflexivity|tauto].
Qed.

Lemma dict_fold_fresh (pairs : list (str * json)) : forall acc,
  NoDup (map fst (acc ++ pairs)) ->
  fold_left (fun d kv => dict_set (fst kv) (snd kv) d) pairs acc = acc ++ pairs.
Proof.
  induction pairs as [|[k v] pairs IH]; intros acc H; cbn [fold_left fst snd].
  - now rewrite app_nil_r.
  - rewrite dict_set_fresh.
    + rewrite IH; rewrite <- app_assoc; [reflexivity|exact H].
    + rewrite map_app in H. cbn [map fst] in H. apply NoDup_remove_2 in H.
      intros Hin. apply H. apply in_or_app. now left.
Qed.

Lemma dict_of_pairs_nodup (pairs : list (str * json)) :
  NoDup (map fst pairs) -> dict_of_pairs pairs = pairs.
Proof. intros H. unfold dict_of_pairs. now rewrite dict_fold_fresh. Qed.

(** ** The scalar values *)

Lemma scan_once_number (fuel : nat) (n : Z) (rest : str) :
  delimited rest -> scan_once (S fuel) (int_repr n ++ rest) = Scanned (JInt n) rest.
Proof.
  intros Hr. pose proof (match_number_int_repr n rest Hr) as Hm.
  destruct (int_repr_head n) as (c & t & E & Hc). rewrite E in *.
  cbn [app] in *. cbn [scan_once].
  assert ((c =? QUOTE) = false /\ (c =? 0x7B) = false /\ (c =? 0x5B) = false
          /\ (c =? 0x6E) = false /\ (c =? 0x74) = false /\ (c =? 0x66) = false)
    as (H1 & H2 & H3 & H4 & H5 & H6).
  { unfold is_digit in Hc. char_facts; repeat split; try reflexivity;
      apply N.eqb_neq; unfold QUOTE; lia. }
  rewrite H1, H2, H3. unfold scan_scalar.
  change (py "null") with [0x6E; 0x75; 0x6C; 0x6C].
  change (py "true") with [0x74; 0x72; 0x75; 0x65].
  change (py "false") with [0x66; 0x61; 0x6C; 0x73; 0x65].
  cbn [startswith]. rewrite H4, H5, H6. cbn [andb]. now rewrite Hm.
Qed.

Lemma scan_once_str (fuel : nat) (s rest : str) :
  forallb is_code_point s = true ->
  scan_once (S fuel) (encode_basestring_ascii s ++ rest) = Scanned (JStr (normalize s)) rest.
Proof.
  intros Hs. unfold encode_basestring_ascii. cbn [app scan_once].
  rewrite N.eqb_refl, <- app_assoc. cbn [app].
  now rewrite (scanstring_escape_normalize (List.length s)).
Qed.

(** ** Lists and objects *)

Lemma join_cons2 (sep a b : str) (l : list str) :
  join sep (a :: b :: l) = a ++ sep ++ join sep (b :: l).
Proof. reflexivity. Qed.

Lemma join_head (sep : str) (c : char) (a : str) (l : list str) :
  exists t, join sep ((c :: a) :: l) = c :: t.
Proof. destruct l; cbn [join app]; eauto. Qed.

Lemma delimited_newline (n level : nat) (s : str) :
  delimited (newline_indent (Some n) level ++ s).
Proof. now right. Qed.

Lemma delimited_separator (n level : nat) (s : str) :
  delimited ((item_separator (Some n) ++ newline_indent (Some n) level) ++ s).
Proof. now left. Qed.

Lemma skip_ws_separator (n level : nat) (s : str) :
  skip_ws ((item_separator (Some n) ++ newline_indent (Some n) level) ++ s)
  = 0x2C :: newline_indent (Some n) level ++ s.
Proof. reflexivity. Qed.

Lemma skip_ws_items (n level : nat) (x : json) (xs : list json) (sep tail : str) :
  skip_ws (newline_indent (Some n) level
           ++ join sep (map (iterencode (Some n) level) (x :: xs)) ++ tail)
  = join sep (map (iterencode (Some n) level) (x :: xs)) ++ tail.
Proof.
  rewrite skip_ws_newline_indent. apply skip_ws_nonws. cbn [map].
  destruct (iterencode_head (Some n) level x) as (c & t & -> & Hc).
  destruct xs; cbn [map join app]; now apply value_start_facts.
Qed.

Lemma scan_items_join (n level : nat) (xs : list json) : forall x rest fuel,
  Forall (decodes_back n) (x :: xs) ->
  (fold_right (fun x acc => S (need x + acc)) 0 (x :: xs) <= fuel)%nat ->
  scan_items fuel
    (join (item_separator (Some n) ++ newline_indent (Some n) (S level))
       (map (iterencode (Some n) (S level)) (x :: xs))
     ++ newline_indent (Some n) level ++ py "]" ++ rest)
  = Scanned (map normalize_json (x :: xs)) rest.
Proof.
  induction xs as [|y ys IH]; intros x rest fuel HF Hfuel;
    inversion HF as [|? ? Hx HF']; subst; cbn [fold_right] in Hfuel;
    (destruct fuel as [|fuel]; [lia|]); cbn [scan_items].
  - cbn [map join]. rewrite Hx; [|apply delimited_newline|lia].
    cbn [scan_bind]. rewrite skip_ws_newline_indent. reflexivity.
  - cbn [map]. rewrite join_cons2, <- !app_assoc.
    rewrite Hx; [|rewrite app_assoc; apply delimited_separator|lia].
    cbn [scan_bind]. rewrite app_assoc, skip_ws_separator.
    change (0x2C =? 0x5D) with false. change (0x2C =? 0x2C) with true. cbv iota.
    change (iterencode (Some n) (S level) y :: map (iterencode (Some n) (S level)) ys)
      with (map (iterencode (Some n) (S level)) (y :: ys)).
    rewrite skip_ws_items, IH; [reflexivity|exact HF'|].
    cbn [fold_right]. lia.
Qed.

Lemma scan_once_list (fuel : nat) (r : str) :
  scan_once (S fuel) (0x5B :: r)
  = match skip_ws r with
    | c1 :: r1 =>
        if c1 =? 0x5D then Scanned (JList []) r1
        else scan_map JList (scan_items fuel (c1 :: r1))
    | [] => Malformed
    end.
Proof. reflexivity. Qed.

Lemma scan_once_dict (fuel : nat) (r : str) :
  scan_once (S fuel) (0x7B :: r)
  = match skip_ws r with
    | c1 :: r1 =>
        if c1 =? 0x7D then Scanned (JDict []) r1
        else if c1 =? QUOTE then
          scan_map (fun pairs => JDict (dict_of_pairs pairs)) (scan_members fuel r1)
        else Malformed
    | [] => Malformed
    end.
Proof. reflexivity. Qed.

Lemma items_text_head (n level : nat) (x : json) (xs : list json) (sep tail : str) :
  exists c t,
    join sep (map (iterencode (Some n) level) (x :: xs)) ++ tail = c :: t
    /\ value_start c = true.
Proof.
  cbn [map]. destruct (iterencode_head (Some n) level x) as (c & t & -> & Hc).
  destruct xs; cbn [map join app]; eauto.
Qed.

Lemma members_text_head (n level : nat) (kv : str * json) (ms : list (str * json))
    (sep tail : str) :
  join sep (map (encode_member (Some n) level) (kv :: ms)) ++ tail
  = QUOTE :: tl (join sep (map (encode_member (Some n) level) (kv :: ms)) ++ tail).
Proof. destruct ms; reflexivity. Qed.

Lemma skip_ws_value (n level : nat) (o : json) (tail : str) :
  skip_ws (iterencode (Some n) level o ++ tail) = iterencode (Some n) level o ++ tail.
Proof.
  apply skip_ws_nonws. destruct (iterencode_head (Some n) level o) as (c & t & -> & Hc).
  now apply value_start_facts.
Qed.

Lemma scan_members_join (n level : nat) (ms : list (str * json)) : forall kv rest fuel,
  Forall (fun kv => well_formed (fst kv) = true /\ decodes_back n (snd kv)) (kv :: ms) ->
  (fold_right (fun kv acc => S (need (snd kv) + acc)) 0 (kv :: ms) <= fuel)%nat ->
  scan_members fuel
    (tl (join (item_separator (Some n) ++ newline_indent (Some n) (S level))
           (map (encode_member (Some n) (S level)) (kv :: ms))
         ++ newline_indent (Some n) level ++ py "}" ++ rest))
  = Scanned (map (fun kv => (fst kv, normalize_json (snd kv))) (kv :: ms)) rest.
Proof.
  induction ms as [|kv' ms' IH]; intros [k v] rest fuel HF Hfuel;
    inversion HF as [|? ? [Hk Hv] HF']; subst; cbn [fold_right fst snd] in *;
    (destruct fuel as [|fuel]; [lia|]).
  - cbn [map join]. unfold encode_member, encode_basestring_ascii. cbn [fst snd].
    rewrite <- !app_assoc. cbn [app tl]. rewrite <- app_assoc. cbn [app scan_members].
    rewrite scanstring_escape by exact Hk. cbn [scan_bind].
    change (py ": ") with [0x3A; 0x20]. cbn [app].
    change (skip_ws (0x3A :: ?x)) with (0x3A :: x).
    change (0x3A =? 0x3A) with true. cbv iota.
    change (skip_ws (0x20 :: ?x)) with (skip_ws x).
    rewrite skip_ws_value, Hv; [|apply delimited_newline|lia].
    cbn [scan_bind]. rewrite skip_ws_newline_indent. reflexivity.
  - cbn [map]. rewrite join_cons2. unfold encode_member at 1, encode_basestring_ascii.
    cbn [fst snd]. rewrite <- !app_assoc. cbn [app tl]. rewrite <- app_assoc.
    cbn [app scan_members].
    rewrite scanstring_escape by exact Hk. cbn [scan_bind].
    change (py ": ") with [0x3A; 0x20]. cbn [app].
    change (skip_ws (0x3A :: ?x)) with (0x3A :: x).
    change (0x3A =? 0x3A) with true. cbv iota.
    change (skip_ws (0x20 :: ?x)) with (skip_ws x).
    rewrite skip_ws_value, Hv; [|rewrite app_assoc; apply delimited_separator|lia].
    cbn [scan_bind]. rewrite app_assoc, skip_ws_separator.
    change (0x2C =? 0x7D) with false. change (0x2C =? 0x2C) with true. cbv iota.
    change (encode_member (Some n) (S level) kv'
              :: map (encode_member (Some n) (S level)) ms')
      with (map (encode_member (Some n) (S level)) (kv' :: ms')).
    rewrite skip_ws_newline_indent, members_text_head.
    change (skip_ws (QUOTE :: ?x)) with (QUOTE :: x).
    rewrite N.eqb_refl, IH; [reflexivity|exact HF'|lia].
Qed.

Lemma normalize_keys (ms : list (str * json)) :
  map fst (map (fun kv => (fst kv, normalize_json (snd kv))) ms) = map fst ms.
Proof. rewrite map_map. reflexivity. Qed.

(** Decoding the rendering of a document gives it back, normalized. *)
Theorem iterencode_decodes_back (n : nat) (o : json) : json_encodable o -> decodes_back n o.
Proof.
  induction o as [ |b|z|s|items IH|members IH] using json_ind';
    intros Hwf level rest fuel Hr Hfuel;
    (destruct fuel as [|fuel]; [cbn in Hfuel; lia|]).
  - reflexivity.
  - destruct b; reflexivity.
  - now apply scan_once_number.
  - inversion Hwf; subst. now apply scan_once_str.
  - inversion Hwf as [| | | |? Hitems|]; subst.
    destruct items as [|x xs]; [reflexivity|].
    assert (Forall (decodes_back n) (x :: xs)) as HF.
    { apply Forall_forall. intros y Hy.
      apply (proj1 (Forall_forall _ _) IH y Hy), (proj1 (Forall_forall _ _) Hitems y Hy). }
    cbn [iterencode normalize_json]. rewrite <- !app_assoc.
    change (py "[") with [0x5B]. cbn [app].
    rewrite scan_once_list, skip_ws_items.
    destruct (items_text_head n (S level) x xs
                (item_separator (Some n) ++ newline_indent (Some n) (S level))
                (newline_indent (Some n) level ++ py "]" ++ rest))
      as (c & t & E & Hc).
    rewrite E. destruct (value_start_facts c Hc) as (_ & -> & _). rewrite <- E.
    rewrite scan_items_join; [reflexivity|exact HF|]. cbn [need] in Hfuel. lia.
  - inversion Hwf as [| | | | |? Hnodup Hmembers]; subst.
    destruct members as [|kv ms]; [reflexivity|].
    assert (Forall (fun kv => well_formed (fst kv) = true /\ decodes_back n (snd kv))
              (kv :: ms)) as HF.
    { apply Forall_forall. intros y Hy.
      destruct (proj1 (Forall_forall _ _) Hmembers y Hy) as [Hk Hv].
      split; [exact Hk|]. now apply (proj1 (Forall_forall _ _) IH y Hy). }
    cbn [iterencode normalize_json].
    change (map (fun kv0 => encode_basestring_ascii (fst kv0) ++ py ": "
                            ++ iterencode (Some n) (S level) (snd kv0)) (kv :: ms))
      with (map (encode_member (Some n) (S level)) (kv :: ms)).
    rewrite <- !app_assoc. change (py "{") with [0x7B]. cbn [app].
    rewrite scan_once_dict, skip_ws_newline_indent, members_text_head.
    change (skip_ws (QUOTE :: ?x)) with (QUOTE :: x).
    change (QUOTE =? 0x7D) with false. change (QUOTE =? QUOTE) with true. cbv iota.
    rewrite scan_members_join; [|exact HF|cbn [need] in Hfuel; lia].
    cbn [scan_map scan_bind]. rewrite dict_of_pairs_nodup; [reflexivity|].
    now rewrite normalize_keys.
Qed.

(** A well-formed document is encodable and normal. *)
Lemma json_wf_encodable (o : json) : json_wf o -> json_encodable o.
Proof.
  induction o as [ |b|z|s|items IH|members IH] using json_ind'; intros H;
    inversion H as [| | |? Hs|? Hitems|? Hn Hm]; subst; constructor.
  - unfold well_formed in Hs. now apply andb_true_iff in Hs.
  - apply Forall_forall. intros y Hy.
    apply (proj1 (Forall_forall _ _) IH y Hy), (proj1 (Forall_forall _ _) Hitems y Hy).
  - exact Hn.
  - apply Forall_forall. intros y Hy.
    destruct (proj1 (Forall_forall _ _) Hm y Hy) as [Hk Hv].
    split; [exact Hk|]. now apply (proj1 (Forall_forall _ _) IH y Hy).
Qed.

Lemma normalize_json_wf (o : json) : json_wf o -> normalize_json o = o.
Proof.
  induction o as [ |b|z|s|items IH|members IH] using json_ind'; intros H;
    inversion H as [| | |? Hs|? Hitems|? Hn Hm]; subst; cbn [normalize_json];
    try reflexivity.
  - now rewrite normalize_well_formed.
  - f_equal. rewrite <- (map_id items) at 2. apply map_ext_in. intros y Hy.
    apply (proj1 (Forall_forall _ _) IH y Hy), (proj1 (Forall_forall _ _) Hitems y Hy).
  - f_equal. rewrite <- (map_id members) at 2. apply map_ext_in. intros [k v] Hy.
    cbn [fst snd]. f_equal.
    apply (proj1 (Forall_forall _ _) IH _ Hy).
    now destruct (proj1 (Forall_forall _ _) Hm _ Hy).
Qed.

(** ** What the scanner builds from decoded text *)

Lemma hexval_lt (c : char) (d : N) : hexval c = Some d -> d < 16.
Proof.
  unfold hexval.
  destruct ((48 <=? c) && (c <=? 57)) eqn:E1;
    [|destruct ((97 <=? c) && (c <=? 102)) eqn:E2;
      [|destruct ((65 <=? c) && (c <=? 70)) eqn:E3; [|discriminate]]];
    intros H; injection H as <-; char_facts; lia.
Qed.

Lemma decode_uXXXX_lt (h1 h2 h3 h4 : char) (u : N) :
  decode_uXXXX h1 h2 h3 h4 = Some u -> u < 0x10000.
Proof.
  unfold decode_uXXXX.
  destruct (hexval h1) as [a|] eqn:E1; [|discriminate].
  destruct (hexval h2) as [b|] eqn:E2; [|discriminate].
  destruct (hexval h3) as [c|] eqn:E3; [|discriminate].
  destruct (hexval h4) as [d|] eqn:E4; [|discriminate].
  apply hexval_lt in E1, E2, E3, E4. intros H. injection H as <-. lia.
Qed.

Lemma join_surrogates_range (hi lo : char) :
  is_high_surrogate hi = true -> is_low_surrogate lo = true ->
  0x10000 <= join_surrogates hi lo /\ join_surrogates hi lo < 0x110000.
Proof.
  unfold is_high_surrogate, is_low_surrogate, join_surrogates. intros H1 H2. char_facts.
  rewrite lor_shiftl_low; change (2 ^ 10) with 1024; lia.
Qed.

Lemma unescape_plain (e c : char) :
  unescape e = Some c -> c < 0x80.
Proof.
  unfold unescape.
  repeat match goal with
         | |- context [if ?b then _ else _] => destruct b
         end; intros H; try discriminate; injection H as <-; reflexivity.
Qed.

(** Facts about one character of the output, by its range. *)
Lemma below_surrogates (c : char) :
  c < 0xD800 ->
  is_code_point c = true /\ is_high_surrogate c = false /\ is_low_surrogate c = false.
Proof.
  intros H. unfold is_code_point, is_high_surrogate, is_low_surrogate. repeat split.
  - apply N.ltb_lt. lia.
  - apply andb_false_iff. left. apply N.leb_gt. lia.
  - apply andb_false_iff. left. apply N.leb_gt. lia.
Qed.

Lemma above_surrogates (c : char) :
  0x10000 <= c -> c < 0x110000 ->
  is_code_point c = true /\ is_high_surrogate c = false /\ is_low_surrogate c = false.
Proof.
  intros H1 H2. unfold is_code_point, is_high_surrogate, is_low_surrogate. repeat split.
  - apply N.ltb_lt. lia.
  - apply andb_false_iff. right. apply N.leb_gt. lia.
  - apply andb_false_iff. right. apply N.leb_gt. lia.
Qed.

Lemma scalar_facts (c : char) :
  is_scalar c = true ->
  is_code_point c = true /\ is_high_surrogate c = false /\ is_low_surrogate c = false.
Proof.
  unfold is_scalar. intros H. apply andb_true_iff in H as [H H3].
  apply andb_true_iff in H as [H1 H2].
  apply negb_true_iff in H2, H3. auto.
Qed.

Lemma well_formed_cons (c : char) (t : str) :
  is_code_point c = true ->
  forallb is_code_point t = true -> no_surrogate_pair t = true ->
  (is_high_surrogate c = true ->
   match t with c' :: _ => is_low_surrogate c' = false | [] => True end) ->
  forallb is_code_point (c :: t) = true /\ no_surrogate_pair (c :: t) = true.
Proof.
  intros H1 H2 H3 H4. cbn [forallb no_surrogate_pair]. rewrite H1, H2, H3.
  split; [reflexivity|]. rewrite andb_true_r. apply negb_true_iff.
  destruct (is_high_surrogate c); [|reflexivity].
  destruct t as [|c' t']; [reflexivity|]. now rewrite H4.
Qed.

Lemma scanned_well_step (s r' : str) (x : char) (t rest : str) :
  (forall t rest, forallb is_scalar r' = true ->
                  scanstring r' = Scanned t rest -> scanned_well r' t rest) ->
  forallb is_scalar r' = true ->
  scan_cons x (scanstring r') = Scanned t rest ->
  is_code_point x = true ->
  (is_high_surrogate x = true -> ~ low_head r') ->
  (is_low_surrogate x = true -> low_head s) ->
  scanned_well s t rest.
Proof.
  intros IH Hr H Hx Hhigh Hlow.
  apply scan_cons_inv in H as (t' & H & ->).
  destruct (IH t' rest Hr H) as (H1 & H2 & H3 & H4).
  destruct (well_formed_cons x t' Hx H1 H2) as [G1 G2].
  { intros Hh. destruct t' as [|c' t'']; [exact I|].
    destruct (is_low_surrogate c') eqn:E; [|reflexivity].
    destruct (Hhigh Hh). now apply (H4 c' t''). }
  repeat split; try assumption.
  intros c t'' E Hc. injection E as <- <-. now apply Hlow.
Qed.

Lemma scanstring_well (s : str) : forall t rest,
  forallb is_scalar s = true -> scanstring s = Scanned t rest -> scanned_well s t rest.
Proof.
  functional induction (scanstring s); intros t rest Hs H; try discriminate.
  - injection H as <- <-. apply forallb_tl in Hs. repeat split; try assumption.
    discriminate.
  - pose proof (decode_uXXXX_lt _ _ _ _ _ e9) as Hu.
    apply scanned_well_step with (r' := [b]) (x := uni); try assumption.
    + now do 6 apply forallb_tl in Hs.
    + apply N.ltb_lt. lia.
    + intros _ (k1 & k2 & k3 & k4 & r & u & E & _). discriminate.
    + intros Hl. apply N.eqb_eq in e1, e4. subst. exists h1, h2, h3, h4, [b], uni. now repeat split.
  - apply andb_true_iff in e12 as [e12 _]. apply andb_true_iff in e12 as [e12 _].
    destruct (join_surrogates_range _ _ e12 e18) as [J1 J2].
    destruct (above_surrogates _ J1 J2) as (A1 & A2 & A3).
    apply scanned_well_step with (r' := r4) (x := join_surrogates uni uni2);
      try assumption; try congruence.
    now do 12 apply forallb_tl in Hs.
  - pose proof (decode_uXXXX_lt _ _ _ _ _ e9) as Hu.
    apply scanned_well_step with (r' := b :: u :: g1 :: g2 :: g3 :: g4 :: r4) (x := uni);
      try assumption.
    + now do 6 apply forallb_tl in Hs.
    + apply N.ltb_lt. lia.
    + intros _ (k1 & k2 & k3 & k4 & r & u' & E & D & L).
      injection E as -> -> -> -> -> -> ->. congruence.
    + intros Hl. apply N.eqb_eq in e1, e4. subst. eexists h1, h2, h3, h4, _, uni. now repeat split.
  - pose proof (decode_uXXXX_lt _ _ _ _ _ e9) as Hu.
    apply scanned_well_step with (r' := b :: u :: r3) (x := uni); try assumption.
    + now do 6 apply forallb_tl in Hs.
    + apply N.ltb_lt. lia.
    + intros Hh (k1 & k2 & k3 & k4 & r & u' & E & _).
      injection E as -> -> ->. now rewrite Hh in e12.
    + intros Hl. apply N.eqb_eq in e1, e4. subst. eexists h1, h2, h3, h4, _, uni. now repeat split.
  - pose proof (unescape_plain _ _ e5) as Hc.
    destruct (below_surrogates c') as (A1 & A2 & A3); [lia|].
    apply scanned_well_step with (r' := r1) (x := c'); try assumption; try congruence.
    now do 2 apply forallb_tl in Hs.
  - pose proof Hs as Hc. cbn [forallb] in Hc. apply andb_true_iff in Hc as [Hc _].
    destruct (scalar_facts _ Hc) as (A1 & A2 & A3).
    apply scanned_well_step with (r' := r) (x := c); try assumption; try congruence.
    now apply forallb_tl in Hs.
Qed.

(** ** Dictionaries keep their keys apart *)

Lemma dict_set_keys (k : str) (v : json) (d : dict) :
  map fst (dict_set k v d)
  = if in_dec (list_eq_dec N.eq_dec) k (map fst d) then map fst d else map fst d ++ [k].
Proof.
  induction d as [|[k' v'] d IH]; cbn [dict_set map fst].
  - now destruct (in_dec (list_eq_dec N.eq_dec) k []).
  - destruct (str_eqb k' k) eqn:E.
    + apply str_eqb_eq in E. subst. cbn [map fst].
      destruct (in_dec (list_eq_dec N.eq_dec) k (k :: map fst d)) as [_|N]; [reflexivity|].
      destruct N. now left.
    + apply str_eqb_neq in E. cbn [map fst]. rewrite IH.
      destruct (in_dec (list_eq_dec N.eq_dec) k (map fst d)) as [I|N];
        destruct (in_dec (list_eq_dec N.eq_dec) k (k' :: map fst d)) as [I'|N']; try reflexivity.
      * destruct N'. now right.
      * destruct I' as [I'|I']; [congruence|contradiction].
Qed.

Lemma dict_set_nodup (k : str) (v : json) (d : dict) :
  NoDup (map fst d) -> NoDup (map fst (dict_set k v d)).
Proof.
  intros H. rewrite dict_set_keys.
  destruct (in_dec (list_eq_dec N.eq_dec) k (map fst d)) as [I|N]; [exact H|].
  apply NoDup_rev in H. rewrite <- (rev_involutive (map fst d ++ [k])).
  apply NoDup_rev. rewrite rev_app_distr. cbn [rev app]. constructor; [|exact H].
  now rewrite <- in_rev.
Qed.

Lemma dict_set_Forall (Q : str * json -> Prop) (k : str) (v : json) (d : dict) :
  Q (k, v) -> Forall Q d -> Forall Q (dict_set k v d).
Proof.
  intros Hq. induction 1 as [|[k' v'] d Hx Hd IH]; cbn [dict_set].
  - now constructor.
  - destruct (str_eqb k' k) eqn:E.
    + apply str_eqb_eq in E. subst. now constructor.
    + now constructor.
Qed.

Lemma dict_of_pairs_wf (Q : str * json -> Prop) (pairs : list (str * json)) :
  Forall Q pairs ->
  NoDup (map fst (dict_of_pairs pairs)) /\ Forall Q (dict_of_pairs pairs).
Proof.
  unfold dict_of_pairs. intros H.
  assert (forall acc, NoDup (map fst acc) -> Forall Q acc ->
            NoDup (map fst (fold_left (fun d kv => dict_set (fst kv) (snd kv) d) pairs acc))
            /\ Forall Q (fold_left (fun d kv => dict_set (fst kv) (snd kv) d) pairs acc))
    as G.
  { induction H as [|[k v] pairs Hkv Hp IH]; intros acc H1 H2; cbn [fold_left fst snd].
    - now split.
    - apply IH; [now apply dict_set_nodup|now apply dict_set_Forall]. }
  apply G; constructor.
Qed.

Lemma dict_get_Forall (Q : str * json -> Prop) (k : str) (v : json) (d : dict) :
  Forall Q d -> dict_get k d = Some v -> Q (k, v).
Proof.
  induction 1 as [|[k' v'] d Hx Hd IH]; cbn [dict_get]; [discriminate|].
  destruct (str_eqb k' k) eqn:E.
  - apply str_eqb_eq in E. subst. intros H. now injection H as <-.
  - exact IH.
Qed.

Lemma dict_get_set_same (k : str) (v : json) (d : dict) :
  dict_get k (dict_set k v d) = Some v.
Proof.
  induction d as [|[k' v'] d IH]; cbn [dict_set dict_get].
  - now rewrite str_eqb_refl.
  - destruct (str_eqb k' k) eqn:E; cbn [dict_get]; rewrite E; [reflexivity|exact IH].
Qed.

Lemma dict_get_set_other (k k' : str) (v : json) (d : dict) :
  k <> k' -> dict_get k' (dict_set k v d) = dict_get k' d.
Proof.
  intros Hk. induction d as [|[k0 v0] d IH]; cbn [dict_set dict_get].
  - apply str_eqb_neq in Hk. now rewrite Hk.
  - destruct (str_eqb k0 k) eqn:E; cbn [dict_get].
    + apply str_eqb_eq in E. subst. apply str_eqb_neq in Hk. now rewrite Hk.
    + now rewrite IH.
Qed.

Lemma dict_set_get (k : str) (v : json) (d : dict) :
  dict_get k d = Some v -> dict_set k v d = d.
Proof.
  induction d as [|[k' v'] d IH]; cbn [dict_set dict_get]; [discriminate|].
  destruct (str_eqb k' k) eqn:E.
  - intros H. now injection H as ->.
  - intros H. now rewrite IH.
Qed.

Lemma dict_set_idem (k : str) (v : json) (d : dict) :
  dict_set k v (dict_set k v d) = dict_set k v d.
Proof. apply dict_set_get, dict_get_set_same. Qed.

(** ** The scanner builds well-formed documents from decoded text *)

Lemma skip_ws_scalar (s : str) :
  forallb is_scalar s = true -> forallb is_scalar (skip_ws s) = true.
Proof.
  induction s as [|c s IH]; [trivial|]. intros H. cbn [skip_ws].
  destruct (is_json_ws c); [|exact H]. apply IH. now apply forallb_tl in H.
Qed.

Lemma forallb_app_r {A} (p : A -> bool) (l1 l2 : list A) :
  forallb p (l1 ++ l2) = true -> forallb p l2 = true.
Proof. rewrite forallb_app. intros H. now apply andb_true_iff in H. Qed.

Lemma match_number_suffix (s : str) (v : json) (rest : str) :
  match_number s = Scanned v rest ->
  (exists n, v = JInt n) /\ exists pre, s = pre ++ rest.
Proof.
  unfold match_number.
  set (negative := match s with c :: _ => c =? 0x2D | [] => false end).
  set (s1 := if negative then tl s else s).
  assert (exists pre, s = pre ++ s1) as [pre0 Hs1].
  { subst s1. destruct negative; [|now exists []]. destruct s as [|c s]; [now exists []|].
    now exists [c]. }
  destruct s1 as [|d r] eqn:E1; [discriminate|].
  destruct (if d =? 0x30 then ([d], r)
            else if is_digit d then span_digits (d :: r) else ([], d :: r))
    as [ds rest'] eqn:E.
  destruct ds as [|d' ds]; [discriminate|].
  destruct (has_frac_or_exp rest'); [discriminate|].
  intros H. injection H as <- <-. split; [eauto|].
  assert (d :: r = (d' :: ds) ++ rest') as Happ.
  { destruct (d =? 0x30); [now injection E as <- <- <-|].
    destruct (is_digit d); [now apply span_digits_app|discriminate]. }
  exists (pre0 ++ d' :: ds). now rewrite Hs1, Happ, <- app_assoc.
Qed.

Lemma scan_scalar_wf (s : str) (v : json) (rest : str) :
  forallb is_scalar s = true -> scan_scalar s = Scanned v rest ->
  json_wf v /\ forallb is_scalar rest = true.
Proof.
  intros Hs. unfold scan_scalar.
  destruct (startswith s (py "null")) eqn:E1.
  { intros H. injection H as <- <-. split; [constructor|].
    apply startswith_skipn in E1. rewrite E1 in Hs. now apply forallb_app_r in Hs. }
  destruct (startswith s (py "true")) eqn:E2.
  { intros H. injection H as <- <-. split; [constructor|].
    apply startswith_skipn in E2. rewrite E2 in Hs. now apply forallb_app_r in Hs. }
  destruct (startswith s (py "false")) eqn:E3.
  { intros H. injection H as <- <-. split; [constructor|].
    apply startswith_skipn in E3. rewrite E3 in Hs. now apply forallb_app_r in Hs. }
  destruct (match_number s) eqn:E; try discriminate.
  - intros H. injection H as <- <-.
    apply match_number_suffix in E as [[n ->] [pre ->]]. split; [constructor|].
    now apply forallb_app_r in Hs.
  - destruct (_ || _); discriminate.
Qed.

Lemma scan_wf (fuel : nat) :
  (forall s v rest, forallb is_scalar s = true -> scan_once fuel s = Scanned v rest ->
                    json_wf v /\ forallb is_scalar rest = true)
  /\ (forall s vs rest, forallb is_scalar s = true -> scan_items fuel s = Scanned vs rest ->
                        Forall json_wf vs /\ forallb is_scalar rest = true)
  /\ (forall s ps rest, forallb is_scalar s = true -> scan_members fuel s = Scanned ps rest ->
                        Forall (fun kv => well_formed (fst kv) = true /\ json_wf (snd kv)) ps
                        /\ forallb is_scalar rest = true).
Proof.
  induction fuel as [|fuel (IH1 & IH2 & IH3)]; [repeat split; discriminate|].
  split; [|split]; intros s v rest Hs H.
  - cbn [scan_once] in H. destruct s as [|c r]; [discriminate|].
    pose proof (forallb_tl _ _ _ Hs) as Hr.
    destruct (c =? QUOTE).
    { apply scan_map_inv in H as (t & H & ->).
      destruct (scanstring_well _ _ _ Hr H) as (W1 & W2 & W3 & _).
      split; [|exact W3]. constructor. unfold well_formed. now rewrite W1, W2. }
    destruct (c =? 0x7B).
    { pose proof (skip_ws_scalar r Hr) as Hk.
      destruct (skip_ws r) as [|c1 r1]; [discriminate|].
      pose proof (forallb_tl _ _ _ Hk) as Hr1.
      destruct (c1 =? 0x7D).
      { injection H as <- <-. split; [|exact Hr1]. constructor; constructor. }
      destruct (c1 =? QUOTE); [|discriminate].
      apply scan_map_inv in H as (ps & H & ->).
      destruct (IH3 _ _ _ Hr1 H) as [W1 W2]. split; [|exact W2].
      destruct (dict_of_pairs_wf _ ps W1) as [N F]. now constructor. }
    destruct (c =? 0x5B).
    { pose proof (skip_ws_scalar r Hr) as Hk.
      destruct (skip_ws r) as [|c1 r1]; [discriminate|].
      destruct (c1 =? 0x5D).
      { injection H as <- <-. split; [constructor; constructor|]. now apply forallb_tl in Hk. }
      apply scan_map_inv in H as (vs & H & ->).
      destruct (IH2 _ _ _ Hk H) as [W1 W2]. split; [now constructor|exact W2]. }
    now apply scan_scalar_wf with (s := c :: r).
  - cbn [scan_items] in H. apply scan_bind_inv in H as (value & rest1 & H1 & H).
    destruct (IH1 _ _ _ Hs H1) as [W1 W2].
    pose proof (skip_ws_scalar rest1 W2) as Hk.
    destruct (skip_ws rest1) as [|c r]; [discriminate|].
    pose proof (forallb_tl _ _ _ Hk) as Hr.
    destruct (c =? 0x5D).
    { injection H as <- <-. split; [|exact Hr]. now repeat constructor. }
    destruct (c =? 0x2C); [|discriminate].
    apply scan_cons_inv in H as (t & H & ->).
    destruct (IH2 _ _ _ (skip_ws_scalar r Hr) H) as [W3 W4].
    split; [now constructor|exact W4].
  - cbn [scan_members] in H. apply scan_bind_inv in H as (key & rest1 & H1 & H).
    destruct (scanstring_well _ _ _ Hs H1) as (K1 & K2 & K3 & _).
    assert (well_formed key = true) as Hkey by (unfold well_formed; now rewrite K1, K2).
    pose proof (skip_ws_scalar rest1 K3) as Hk.
    destruct (skip_ws rest1) as [|c r]; [discriminate|].
    pose proof (forallb_tl _ _ _ Hk) as Hr.
    destruct (c =? 0x3A); [|discriminate].
    apply scan_bind_inv in H as (value & rest2 & H2 & H).
    destruct (IH1 _ _ _ (skip_ws_scalar r Hr) H2) as [W1 W2].
    pose proof (skip_ws_scalar rest2 W2) as Hk2.
    destruct (skip_ws rest2) as [|c1 r1]; [discriminate|].
    pose proof (forallb_tl _ _ _ Hk2) as Hr1.
    destruct (c1 =? 0x7D).
    { injection H as <- <-. split; [|exact Hr1]. now repeat constructor. }
    destruct (c1 =? 0x2C); [|discriminate].
    pose proof (skip_ws_scalar r1 Hr1) as Hk3.
    destruct (skip_ws r1) as [|c2 r2]; [discriminate|].
    pose proof (forallb_tl _ _ _ Hk3) as Hr2.
    destruct (c2 =? QUOTE); [|discriminate].
    apply scan_cons_inv in H as (t & H & ->).
    destruct (IH3 _ _ _ Hr2 H) as [W3 W4].
    split; [now repeat constructor|exact W4].
Qed.

Lemma universal_newlines_scalar (s : str) :
  forallb is_scalar s = true -> forallb is_scalar (universal_newlines s) = true.
Proof.
  assert (forall n s, (List.length s <= n)%nat -> forallb is_scalar s = true ->
                      forallb is_scalar (universal_newlines s) = true) as G.
  { clear s. induction n as [|n IH]; intros [|c r] L H; cbn [List.length] in L;
      try reflexivity; try lia.
    cbn [universal_newlines]. pose proof (forallb_tl _ _ _ H) as Hr.
    destruct (c =? CR).
    - cbn [forallb]. change (is_scalar LF) with true. cbn [andb].
      destruct r as [|c' r']; [reflexivity|]. cbn [List.length] in L.
      destruct (c' =? LF).
      + apply IH; [lia|]. now apply forallb_tl in Hr.
      + apply IH; [cbn [List.length]; lia|exact Hr].
    - cbn [forallb] in *. apply andb_true_iff in H as [Hc _]. rewrite Hc. cbn [andb].
      apply IH; [lia|exact Hr]. }
  apply (G (List.length s)). lia.
Qed.

(** A document decoded from decoded text is well formed. *)
Lemma json_loads_wf (text : str) (data : json) :
  forallb is_scalar text = true -> json_loads text = Document data -> json_wf data.
Proof.
  intros Hs. unfold json_loads. destruct (startswith text [0xFEFF]); [discriminate|].
  destruct (scan_once _ (skip_ws text)) as [v rest| | |] eqn:E; try discriminate.
  destruct (skip_ws rest); [|discriminate]. intros H. injection H as <-.
  now apply (proj1 (scan_wf _) _ _ _ (skip_ws_scalar text Hs) E).
Qed.

(** ** Reading back what [json.dumps] wrote *)

Lemma json_loads_dumps_normalize (n : nat) (o : json) :
  json_encodable o ->
  json_loads (json_dumps (Some n) o ++ [LF]) = Document (normalize_json o).
Proof.
  intros Hwf. unfold json_loads, json_dumps.
  pose proof (iterencode_decodes_back n o Hwf 0%nat [LF] (need o)
                (or_intror eq_refl) (le_n _)) as H.
  apply scan_once_enough
    with (fuel' := (2 * List.length (iterencode (Some n) 0 o ++ [LF]) + 2)%nat) in H;
    [|lia].
  destruct (iterencode_head (Some n) 0 o) as (c & t & E & Hc).
  destruct (value_start_facts c Hc) as (Hws & _ & _ & Hbom).
  rewrite E in *. cbn [app startswith skip_ws] in *.
  rewrite Hbom, Hws. cbn [andb]. rewrite H. reflexivity.
Qed.


Lemma forallb_join (p : char -> bool) (sep : str) (parts : list str) :
  forallb p sep = true -> Forall (fun x => forallb p x = true) parts ->
  forallb p (join sep parts) = true.
Proof.
  intros Hsep. induction 1 as [|x [|y parts] Hx Hparts IH]; [reflexivity|exact Hx|].
  rewrite join_cons2, !forallb_app, Hx, Hsep. exact IH.
Qed.

Lemma digit_dumps_char (c : char) : is_digit c = true -> is_dumps_char c = true.
Proof.
  unfold is_digit, is_dumps_char, is_printable_ascii. intros H. char_facts.
  apply orb_true_iff. left. apply andb_true_iff. split; apply N.leb_le; lia.
Qed.

Lemma printable_dumps_char (c : char) : is_printable_ascii c = true -> is_dumps_char c = true.
Proof. unfold is_dumps_char. now intros ->. Qed.

Lemma int_repr_dumps_chars (n : Z) : forallb is_dumps_char (int_repr n) = true.
Proof.
  destruct (int_repr_digits n) as (negative & m & -> & _ & _).
  rewrite forallb_app. apply andb_true_iff. split; [now destruct negative|].
  apply forallb_impl with (p := is_digit); [apply digit_dumps_char|].
  apply digits_of_uint_digits.
Qed.

Lemma encode_basestring_dumps_chars (s : str) :
  forallb is_dumps_char (encode_basestring_ascii s) = true.
Proof.
  apply forallb_impl with (p := is_printable_ascii); [apply printable_dumps_char|].
  apply encode_basestring_ascii_printable.
Qed.

Lemma newline_indent_dumps_chars (indent : option nat) (level : nat) :
  forallb is_dumps_char (newline_indent indent level) = true.
Proof.
  destruct indent as [n|]; [|reflexivity]. cbn [newline_indent forallb].
  apply forallb_impl with (p := is_printable_ascii); [apply printable_dumps_char|].
  apply spaces_printable.
Qed.

Lemma separator_dumps_chars (indent : option nat) (level : nat) :
  forallb is_dumps_char (item_separator indent ++ newline_indent indent level) = true.
Proof.
  rewrite forallb_app, newline_indent_dumps_chars. now destruct indent.
Qed.

Lemma iterencode_dumps_chars (indent : option nat) (o : json) : forall level,
  forallb is_dumps_char (iterencode indent level o) = true.
Proof.
  induction o as [ |b|z|s|items IH|members IH] using json_ind'; intros level.
  - reflexivity.
  - now destruct b.
  - apply int_repr_dumps_chars.
  - apply encode_basestring_dumps_chars.
  - destruct items as [|x xs]; [reflexivity|]. cbn [iterencode].
    rewrite !forallb_app, !newline_indent_dumps_chars.
    rewrite forallb_join; [reflexivity|apply separator_dumps_chars|].
    apply Forall_map. eapply Forall_impl; [|exact IH]. intros a Ha. apply Ha.
  - destruct members as [|kv ms]; [reflexivity|]. cbn [iterencode].
    rewrite !forallb_app, !newline_indent_dumps_chars.
    rewrite forallb_join; [reflexivity|apply separator_dumps_chars|].
    apply Forall_map. eapply Forall_impl; [|exact IH]. intros a Ha. cbv beta.
    now rewrite !forallb_app, encode_basestring_dumps_chars, Ha.
Qed.

Lemma universal_newlines_id (s : str) :
  forallb is_dumps_char s = true -> universal_newlines s = s.
Proof.
  induction s as [|c s IH]; [reflexivity|]. cbn [forallb universal_newlines].
  intros H. apply andb_true_iff in H as [Hc Hs].
  replace (c =? CR) with false; [now rewrite IH|].
  symmetry. apply N.eqb_neq. intros ->. discriminate.
Qed.

Lemma dumps_universal_newlines (n : nat) (o : json) :
  universal_newlines (json_dumps (Some n) o ++ [LF]) = json_dumps (Some n) o ++ [LF].
Proof.
  apply universal_newlines_id. rewrite forallb_app. unfold json_dumps.
  now rewrite iterencode_dumps_chars.
Qed.

(** ** [update_json_version] and [update_tauri_conf] *)


Lemma version_not_packages : py "version" <> py "packages".
Proof. discriminate. Qed.




(** A later assignment to a key overrides an earlier one. *)
Lemma dict_set_override (k : str) (x y : json) (d : dict) :
  dict_set k x (dict_set k y d) = dict_set k x d.
Proof.
  induction d as [|[k' v'] d IH]; cbn [dict_set].
  - now rewrite str_eqb_refl.
  - destruct (str_eqb k' k) eqn:E; cbn [dict_set]; rewrite E; [reflexivity|].
    now rewrite IH.
Qed.

(** Assignments to two keys, one of which the dictionary already has,
    can be made in either order. *)
Lemma dict_set_comm (k1 k2 : str) (x y : json) (d : dict) :
  k1 <> k2 -> dict_get k2 d <> None ->
  dict_set k1 x (dict_set k2 y d) = dict_set k2 y (dict_set k1 x d).
Proof.
  intros Hk. induction d as [|[k v] d IH]; cbn [dict_get dict_set]; [congruence|].
  destruct (str_eqb k k2) eqn:E2.
  - intros _. apply str_eqb_eq in E2. subst k.
    assert (str_eqb k2 k1 = false) as E1 by (apply str_eqb_neq; congruence).
    cbn [dict_set]. rewrite E1. cbn [dict_set]. now rewrite str_eqb_refl.
  - intros Hg. destruct (str_eqb k k1) eqn:E1; cbn [dict_set]; rewrite E1, E2;
      [reflexivity|]. now rewrite IH.
Qed.

(** Bumping to [version] after bumping to any other version is bumping
    to [version]. *)
Lemma bump_json_again (d : dict) (version' version : str) :
  bump_json (bump_json d version') version = bump_json d version.
Proof.
  assert (forall v, dict_get (py "packages") (dict_set (py "version") (JStr v) d)
                    = dict_get (py "packages") d) as Hp
    by (intros v; apply dict_get_set_other, version_not_packages).
  unfold bump_json at 2. unfold set_root_package_version at 1. rewrite Hp.
  destruct (dict_get (py "packages") d) as [[ | | | | |packages]|] eqn:E;
    try (unfold bump_json; now rewrite dict_set_override).
  destruct (dict_contains [] packages) eqn:C;
    [|unfold bump_json; now rewrite dict_set_override].
  destruct (dict_get [] packages) as [[ | | | | |root]|] eqn:E1;
    try (unfold bump_json; now rewrite dict_set_override).
  unfold bump_json.
  rewrite dict_set_comm;
    [|apply version_not_packages|rewrite Hp; discriminate].
  rewrite dict_set_override.
  unfold set_root_package_version, dict_contains.
  rewrite !dict_get_set_same, Hp, E1.
  now rewrite !dict_set_override.
Qed.

(** Bumping twice is bumping once. *)
Lemma bump_json_idem (d : dict) (version : str) :
  bump_json (bump_json d version) version = bump_json d version.
Proof. apply bump_json_again. Qed.

(** ** Bumping and normalizing *)

Lemma normalize_dict_get (k : str) (d : dict) :
  dict_get k (normalize_dict d) = option_map normalize_json (dict_get k d).
Proof.
  induction d as [|[k' v'] d IH]; [reflexivity|].
  cbn [normalize_dict map fst snd dict_get].
  destruct (str_eqb k' k); [reflexivity|exact IH].
Qed.

Lemma normalize_dict_set (k : str) (x : json) (d : dict) :
  normalize_dict (dict_set k x d) = dict_set k (normalize_json x) (normalize_dict d).
Proof.
  induction d as [|[k' v'] d IH]; [reflexivity|].
  cbn [normalize_dict map fst snd dict_set].
  destruct (str_eqb k' k); [reflexivity|].
  cbn [map fst snd]. f_equal. exact IH.
Qed.

Lemma normalize_root_package (d : dict) (version : str) :
  normalize_dict (set_root_package_version d version)
  = set_root_package_version (normalize_dict d) (normalize version).
Proof.
  unfold set_root_package_version, dict_contains.
  rewrite normalize_dict_get.
  destruct (dict_get (py "packages") d) as [[ | | | | |packages]|];
    cbn [option_map normalize_json]; try reflexivity.
  fold (normalize_dict packages). rewrite normalize_dict_get.
  destruct (dict_get [] packages) as [[ | | | | |root]|];
    cbn [option_map normalize_json]; try reflexivity.
  fold (normalize_dict root).
  rewrite !normalize_dict_set. cbn [normalize_json].
  fold (normalize_dict (dict_set (py "version") (JStr version) root)).
  fold (normalize_dict
          (dict_set [] (JDict (dict_set (py "version") (JStr version) root)) packages)).
  rewrite !normalize_dict_set. cbn [normalize_json].
  fold (normalize_dict (dict_set (py "version") (JStr version) root)).
  now rewrite !normalize_dict_set.
Qed.

(** Reading a bumped document back normalizes the version only, when
    the document came from decoded text. *)
Lemma normalize_bump_json (d : dict) (version : str) :
  json_wf (JDict d) ->
  normalize_json (JDict (bump_json d version)) = JDict (bump_json d (normalize version)).
Proof.
  intros Hd. cbn [normalize_json]. fold (normalize_dict (bump_json d version)).
  unfold bump_json. rewrite normalize_root_package, normalize_dict_set.
  pose proof (normalize_json_wf _ Hd) as H. cbn [normalize_json] in H.
  injection H as H. unfold normalize_dict. now rewrite H.
Qed.

Lemma dict_set_encodable (k : str) (x : json) (d : dict) :
  json_encodable (JDict d) -> well_formed k = true -> json_encodable x ->
  json_encodable (JDict (dict_set k x d)).
Proof.
  intros H Hk Hx. inversion H as [| | | | |? Hn Hf]; subst. constructor.
  - now apply dict_set_nodup.
  - now apply dict_set_Forall.
Qed.

Lemma dict_get_encodable (k : str) (x : json) (d : dict) :
  json_encodable (JDict d) -> dict_get k d = Some x -> json_encodable x.
Proof.
  intros H Hg. inversion H as [| | | | |? Hn Hf]; subst.
  now apply (dict_get_Forall _ k x d Hf Hg).
Qed.

Lemma bump_json_encodable (d : dict) (version : str) :
  json_encodable (JDict d) -> forallb is_code_point version = true ->
  json_encodable (JDict (bump_json d version)).
Proof.
  intros Hd Hv. unfold bump_json, set_root_package_version.
  assert (json_encodable (JStr version)) as Hs by now constructor.
  set (d' := dict_set (py "version") (JStr version) d).
  assert (json_encodable (JDict d')) as Hd' by now apply dict_set_encodable.
  destruct (dict_get (py "packages") d') as [[ | | | | |packages]|] eqn:E; try exact Hd'.
  destruct (dict_contains [] packages); [|exact Hd'].
  destruct (dict_get [] packages) as [[ | | | | |root]|] eqn:E1; try exact Hd'.
  pose proof (dict_get_encodable _ _ _ Hd' E) as Hp.
  pose proof (dict_get_encodable _ _ _ Hp E1) as Hr.
  apply dict_set_encodable; [exact Hd'|reflexivity|].
  apply dict_set_encodable; [exact Hp|reflexivity|].
  now apply dict_set_encodable.
Qed.




(** What a run of [update_json_version] does, by what the file holds. *)
Lemma update_json_version_run (p : path) (version : str) (w : world) (text : str) :
  files w p = Some text ->
  update_json_version p version w
  = match json_loads (universal_newlines text) with
    | Document (JDict d) =>
        write_text p (json_dumps (Some 2%nat) (JDict (bump_json d version)) ++ [LF]) w
    | Document _ => (w, Raise TypeError)
    | DecodeError => (w, Raise JSONDecodeError)
    | HasFloat => (w, Unmodelled)
    end.
Proof.
  intros Hf. unfold update_json_version, bind, read_text, loads. rewrite Hf.
  destruct (json_loads (universal_newlines text)) as [[ | | | | |d]| |]; reflexivity.
Qed.





(** Read back, the file [update_json_version] writes decodes to the
    document bumped to the normalized version. *)
Lemma bumped_file_loads_normalize (text : str) (d : dict) (version : str) :
  forallb is_scalar text = true -> forallb is_code_point version = true ->
  json_loads (universal_newlines text) = Document (JDict d) ->
  json_loads (json_dumps (Some 2%nat) (JDict (bump_json d version)) ++ [LF])
  = Document (JDict (bump_json d (normalize version))).
Proof.
  intros Ht Hv Hl.
  assert (json_wf (JDict d)) as Hd.
  { apply (json_loads_wf (universal_newlines text)); [|exact Hl].
    now apply universal_newlines_scalar. }
  rewrite json_loads_dumps_normalize.
  - now rewrite normalize_bump_json.
  - apply bump_json_encodable; [|exact Hv]. now apply json_wf_encodable.
Qed.







(** ** [main] *)




Lemma update_cargo_version_ok (p : path) (version : str) (w w' : world) :
  update_cargo_version p version w = (w', Ok tt) ->
  exists text,
    files w p = Some text
    /\ existsb (re_match version_pattern) (cargo_lines text) = true
    /\ w' = fst (write_text p
                   (join [LF] (cargo_new_lines version (cargo_lines text)) ++ [LF]) w).
Proof.
  destruct (files w p) as [text|] eqn:Hf.
  - rewrite (update_cargo_version_run _ _ _ _ Hf).
    destruct (existsb (re_match version_pattern) (cargo_lines text)) eqn:E;
      [|discriminate].
    intros H. exists text. split; [reflexivity|]. split; [exact E|].
    now injection H as <-.
  - unfold update_cargo_version, bind, read_text. rewrite Hf. discriminate.
Qed.













(** ** The test server *)

Module ServerFacts.
Import BaseHTTPRequestHandler NoCacheRequestHandler.




End ServerFacts.




(** ** Lines of text *)

Lemma splitlines_from_line (l : str) : forall cur rest,
  no_linebreak l = true ->
  splitlines_from cur (l ++ LF :: rest) = (rev cur ++ l) :: splitlines_from [] rest.
Proof.
  induction l as [|c l IH]; intros cur rest H.
  - cbn [app splitlines_from]. change (islinebreak LF) with true.
    change (LF =? CR) with false. cbv iota. now rewrite app_nil_r.
  - unfold no_linebreak in H. cbn [forallb] in H. apply andb_true_iff in H as [Hc Hl].
    cbn [app splitlines_from]. apply negb_true_iff in Hc. rewrite Hc.
    rewrite IH by exact Hl. cbn [rev]. now rewrite <- app_assoc.
Qed.

(** Lines without a line boundary, joined by line feeds and ended by
    one, split into themselves. *)
Lemma splitlines_join (lines : list str) :
  lines <> [] -> Forall (fun l => no_linebreak l = true) lines ->
  splitlines (join [LF] lines ++ [LF]) = lines.
Proof.
  intros Hne H. unfold splitlines. induction H as [|l ls Hl Hls IH]; [congruence|].
  destruct ls as [|l' ls].
  - cbn [join]. now rewrite splitlines_from_line by exact Hl.
  - rewrite join_cons2, <- !app_assoc. cbn [app].
    rewrite splitlines_from_line by exact Hl. cbn [rev app]. f_equal.
    apply IH. discriminate.
Qed.

Lemma splitlines_from_no_linebreak (n : nat) : forall s cur,
  (List.length s <= n)%nat -> no_linebreak cur = true ->
  Forall (fun l => no_linebreak l = true) (splitlines_from cur s).
Proof.
  assert (forall cur, no_linebreak cur = true ->
            Forall (fun l => no_linebreak l = true)
              match cur with [] => [] | _ :: _ => [rev cur] end) as Hend.
  { intros cur Hcur. destruct cur as [|c cur]; constructor; [|constructor].
    unfold no_linebreak. now rewrite forallb_rev. }
  induction n as [|n IH]; intros s cur Hn Hcur.
  - destruct s; [|cbn in Hn; lia]. now apply Hend.
  - destruct s as [|c r]; [now apply Hend|].
    cbn [splitlines_from List.length] in *. destruct (islinebreak c) eqn:E.
    + constructor; [unfold no_linebreak; now rewrite forallb_rev|].
      destruct (c =? CR); [destruct r as [|c' r']; [|destruct (c' =? LF)]|];
        apply IH; cbn [List.length] in *; try lia; reflexivity.
    + apply IH; [lia|]. unfold no_linebreak. cbn [forallb]. now rewrite E.
Qed.

(** No line [str.splitlines] returns holds a line boundary. *)
Lemma splitlines_no_linebreak (s : str) :
  Forall (fun l => no_linebreak l = true) (splitlines s).
Proof. now apply (splitlines_from_no_linebreak (List.length s)). Qed.

Lemma universal_newlines_no_cr_n (n : nat) : forall s,
  (List.length s <= n)%nat -> no_cr (universal_newlines s) = true.
Proof.
  induction n as [|n IH]; intros s Hn.
  - destruct s; [reflexivity|cbn in Hn; lia].
  - destruct s as [|c r]; [reflexivity|]. cbn [universal_newlines List.length] in *.
    destruct (c =? CR) eqn:E.
    + unfold no_cr. cbn [forallb]. change (negb (LF =? CR)) with true. cbn [andb].
      destruct r as [|c' r']; [reflexivity|].
      destruct (c' =? LF); apply IH; cbn [List.length] in *; lia.
    + unfold no_cr. cbn [forallb]. rewrite E. cbn [negb andb]. apply IH. lia.
Qed.

(** Text read with universal newlines holds no carriage return. *)
Lemma universal_newlines_no_cr (s : str) : no_cr (universal_newlines s) = true.
Proof. now apply (universal_newlines_no_cr_n (List.length s)). Qed.

(** Universal newlines leave text without carriage returns as it is. *)
Lemma universal_newlines_fixed (s : str) : no_cr s = true -> universal_newlines s = s.
Proof.
  induction s as [|c s IH]; [reflexivity|]. unfold no_cr. cbn [forallb universal_newlines].
  intros H. apply andb_true_iff in H as [Hc Hs]. apply negb_true_iff in Hc.
  rewrite Hc. now rewrite IH.
Qed.

Lemma no_linebreak_no_cr (s : str) : no_linebreak s = true -> no_cr s = true.
Proof.
  apply forallb_impl. intros c Hc. apply negb_true_iff in Hc. apply negb_true_iff.
  apply N.eqb_neq. intros ->. discriminate.
Qed.

Lemma no_linebreak_no_lf (s : str) : no_linebreak s = true -> no_lf s = true.
Proof.
  apply forallb_impl. intros c Hc. apply negb_true_iff in Hc. apply negb_true_iff.
  apply N.eqb_neq. intros ->. discriminate.
Qed.

Lemma forallb_concat {A} (p : A -> bool) (ls : list (list A)) :
  Forall (fun x => forallb p x = true) ls -> forallb p (List.concat ls) = true.
Proof.
  induction 1 as [|x ls Hx Hls IH]; [reflexivity|].
  cbn [List.concat]. now rewrite forallb_app, Hx.
Qed.

(** ** The version line of the build manifest *)

Lemma split_at_first {A} (p : A -> bool) (a : list A) : forall (a' : list A) x x' r r',
  forallb p a = true -> forallb p a' = true -> p x = false -> p x' = false ->
  a ++ x :: r = a' ++ x' :: r' -> a = a' /\ x = x' /\ r = r'.
Proof.
  induction a as [|c a IH]; intros [|c' a'] x x' r r' Ha Ha' Hx Hx' H; cbn [app forallb] in *.
  - injection H as -> ->. now repeat split.
  - injection H as -> _. apply andb_true_iff in Ha' as [Ha' _]. congruence.
  - injection H as -> _. apply andb_true_iff in Ha as [Ha _]. congruence.
  - injection H as -> H. apply andb_true_iff in Ha as [_ Ha].
    apply andb_true_iff in Ha' as [_ Ha'].
    destruct (IH a' x x' r r' Ha Ha' Hx Hx' H) as (-> & -> & ->). now repeat split.
Qed.

Lemma quoted_value_end (value : str) : forall (v ws : str),
  no_quote value = true -> forallb isspace ws = true ->
  value ++ QUOTE :: ws = v ++ [QUOTE] -> v = value.
Proof.
  induction value as [|c value IH]; intros [|c' v] ws Hv Hws H; cbn [app] in H.
  - reflexivity.
  - injection H as <- H. subst ws. rewrite forallb_app in Hws.
    apply andb_true_iff in Hws as [_ Hws]. discriminate.
  - injection H as -> _. discriminate.
  - injection H as -> H. unfold no_quote in Hv. cbn [forallb] in Hv.
    apply andb_true_iff in Hv as [_ Hv]. f_equal. now apply (IH v ws).
Qed.

(** The line [update_cargo_version] writes is one its pattern accepts
    exactly when the version holds no double quote. *)
Lemma cargo_version_line_matches (version : str) :
  re_match version_pattern (cargo_version_line version) = no_quote version.
Proof.
  destruct (no_quote version) eqn:Hq.
  - apply version_pattern_spec. exists [SPACE], [SPACE], version, [].
    repeat split; try reflexivity. exact Hq.
  - destruct (re_match version_pattern (cargo_version_line version)) eqn:E; [|reflexivity].
    apply version_pattern_spec in E as (ws1 & ws2 & value & ws3 & E & H1 & H2 & H3 & Hv).
    unfold cargo_version_line in E.
    change (py "version = ") with (py "version" ++ [SPACE] ++ [0x3D] ++ [SPACE]) in E.
    rewrite <- !app_assoc in E. apply app_inv_head in E. cbn [app] in E.
    change (SPACE :: 0x3D :: SPACE :: QUOTE :: version ++ [QUOTE])
      with ([SPACE] ++ 0x3D :: [SPACE] ++ QUOTE :: version ++ [QUOTE]) in E.
    symmetry in E.
    apply (split_at_first isspace) in E as (-> & _ & E);
      [|exact H1|reflexivity|reflexivity|reflexivity].
    apply (split_at_first isspace) in E as (-> & _ & E);
      [|exact H2|reflexivity|reflexivity|reflexivity].
    apply quoted_value_end in E; [|exact Hv|exact H3]. subst value.
    unfold no_quote in Hq. congruence.
Qed.

Lemma cargo_version_line_no_linebreak (version : str) :
  no_linebreak version = true -> no_linebreak (cargo_version_line version) = true.
Proof.
  intros H. unfold cargo_version_line, no_linebreak.
  rewrite forallb_app. cbn [forallb]. rewrite forallb_app. fold (no_linebreak version).
  now rewrite H.
Qed.

Lemma cargo_new_lines_no_linebreak (version : str) (lines : list str) :
  no_linebreak version = true ->
  Forall (fun l => no_linebreak l = true) lines ->
  Forall (fun l => no_linebreak l = true) (cargo_new_lines version lines).
Proof.
  intros Hv H. unfold cargo_new_lines. apply Forall_map.
  eapply Forall_impl; [|exact H]. intros line Hl. cbv beta.
  destruct (re_match version_pattern line); [|exact Hl].
  now apply cargo_version_line_no_linebreak.
Qed.

Lemma cargo_lines_no_linebreak (text : str) :
  Forall (fun l => no_linebreak l = true) (cargo_lines text).
Proof. apply splitlines_no_linebreak. Qed.

(** The build manifest [update_cargo_version] wrote reads back as the
    lines it was made of. *)
Lemma cargo_lines_cargo_text (version text : str) :
  no_linebreak version = true ->
  existsb (re_match version_pattern) (cargo_lines text) = true ->
  cargo_lines (cargo_text version text) = cargo_new_lines version (cargo_lines text).
Proof.
  intros Hv He.
  pose proof (cargo_new_lines_no_linebreak version _ Hv (cargo_lines_no_linebreak text))
    as Hnl.
  unfold cargo_lines at 1, cargo_text. rewrite universal_newlines_fixed.
  - apply splitlines_join; [|exact Hnl].
    destruct (cargo_lines text); [discriminate|]. discriminate.
  - unfold no_cr. rewrite forallb_app. apply andb_true_iff. split; [|reflexivity].
    apply forallb_join; [reflexivity|].
    eapply Forall_impl; [|exact Hnl]. intros l Hl. now apply no_linebreak_no_cr.
Qed.

Lemma cargo_new_lines_again (version : str) (lines : list str) :
  no_quote version = true ->
  cargo_new_lines version (cargo_new_lines version lines) = cargo_new_lines version lines
  /\ existsb (re_match version_pattern) (cargo_new_lines version lines)
     = existsb (re_match version_pattern) lines.
Proof.
  intros Hq. unfold cargo_new_lines. induction lines as [|l lines [IH1 IH2]]; [now split|].
  cbn [map existsb]. rewrite IH1, IH2.
  destruct (re_match version_pattern l) eqn:E.
  - now rewrite cargo_version_line_matches, Hq.
  - now rewrite E.
Qed.

Lemma cargo_new_lines_unmatched (version : str) (lines : list str) :
  no_quote version = false ->
  existsb (re_match version_pattern) (cargo_new_lines version lines) = false.
Proof.
  intros Hq. unfold cargo_new_lines. induction lines as [|l lines IH]; [reflexivity|].
  cbn [map existsb]. rewrite IH.
  destruct (re_match version_pattern l) eqn:E.
  - now rewrite cargo_version_line_matches, Hq.
  - now rewrite E.
Qed.

(** [update_cargo_version] as a function of the text of the file. *)
Lemma update_cargo_version_text (p : path) (version : str) (w : world) (text : str) :
  files w p = Some text ->
  update_cargo_version p version w
  = if existsb (re_match version_pattern) (cargo_lines text)
    then write_text p (cargo_text version text) w
    else (w, Raise (SystemExit [Text "No version field found in "; Shown p])).
Proof. intros Hf. now rewrite (update_cargo_version_run _ _ _ _ Hf). Qed.

(** Run on the manifest it wrote, for a version without double quote
    and line boundary, [update_cargo_version] writes the same text. *)
Lemma update_cargo_version_rerun (p : path) (version : str) (w : world) (text : str) :
  no_quote version = true -> no_linebreak version = true ->
  existsb (re_match version_pattern) (cargo_lines text) = true ->
  files w p = Some (cargo_text version text) ->
  update_cargo_version p version w = write_text p (cargo_text version text) w.
Proof.
  intros Hq Hv He Hf. rewrite (update_cargo_version_text _ _ _ _ Hf).
  rewrite cargo_lines_cargo_text by assumption.
  destruct (cargo_new_lines_again version (cargo_lines text) Hq) as [H1 H2].
  rewrite H2, He. unfold cargo_text at 1.
  rewrite cargo_lines_cargo_text by assumption. now rewrite H1.
Qed.

Lemma write_text_same_files (p : path) (data : str) (w : world) :
  files w p = Some data -> forall q, files (fst (write_text p data w)) q = files w q.
Proof.
  intros Hf q. cbn [write_text fst files]. unfold path_eqb.
  destruct (list_eq_dec string_dec p q) as [->|]; [now rewrite Hf|reflexivity].
Qed.

(** X10.  [update_cargo_version] is idempotent for a version that
    holds no double quote and no line boundary: after a call that
    succeeded, a second call with the same version succeeds and leaves
    every file as the first call left it. *)
Theorem update_cargo_version_idempotent (p : path) (version : str) (w w1 : world) :
  no_quote version = true -> no_linebreak version = true ->
  update_cargo_version p version w = (w1, Ok tt) ->
  exists w2,
    update_cargo_version p version w1 = (w2, Ok tt)
    /\ forall q, files w2 q = files w1 q.
Proof.
  intros Hq Hv Hrun.
  apply update_cargo_version_ok in Hrun as (text & Hf & He & ->).
  fold (cargo_text version text).
  eexists. split.
  - rewrite (update_cargo_version_rerun p version _ text Hq Hv He);
      [reflexivity|apply files_write_same].
  - apply write_text_same_files, files_write_same.
Qed.

Lemma update_cargo_version_idempotent_witness :
  exists w2,
    update_cargo_version CARGO_TOML (py "1.2.3")
      (fst (update_cargo_version CARGO_TOML (py "1.2.3")
              (one_file CARGO_TOML cargo_two_versions)))
    = (w2, Ok tt)
    /\ forall q,
         files w2 q
         = files (fst (update_cargo_version CARGO_TOML (py "1.2.3")
                         (one_file CARGO_TOML cargo_two_versions))) q.
Proof.
  apply (update_cargo_version_idempotent CARGO_TOML (py "1.2.3")
           (one_file CARGO_TOML cargo_two_versions)); reflexivity.
Defined.

(** X11.  A version that holds a double quote (and no line boundary)
    is written into lines the pattern of [update_cargo_version] no
    longer accepts: after a call that succeeded with such a version,
    every further call, with whatever version, ends with [SystemExit]
    and writes nothing. *)
Theorem update_cargo_version_quote_lost
    (p : path) (version version' : str) (w w1 : world) :
  no_quote version = false -> no_linebreak version = true ->
  update_cargo_version p version w = (w1, Ok tt) ->
  update_cargo_version p version' w1
  = (w1, Raise (SystemExit [Text "No version field found in "; Shown p])).
Proof.
  intros Hq Hv Hrun.
  apply update_cargo_version_ok in Hrun as (text & Hf & He & ->).
  fold (cargo_text version text).
  rewrite (update_cargo_version_text p version' _ _ (files_write_same _ _ _)).
  rewrite cargo_lines_cargo_text by assumption.
  now rewrite cargo_new_lines_unmatched.
Qed.

Lemma update_cargo_version_quote_lost_witness :
  update_cargo_version CARGO_TOML (py "1.2.4")
    (fst (update_cargo_version CARGO_TOML quoted_version
            (one_file CARGO_TOML cargo_two_versions)))
  = (fst (update_cargo_version CARGO_TOML quoted_version
            (one_file CARGO_TOML cargo_two_versions)),
     Raise (SystemExit [Text "No version field found in "; Shown CARGO_TOML])).
Proof.
  apply (update_cargo_version_quote_lost CARGO_TOML quoted_version (py "1.2.4")
           (one_file CARGO_TOML cargo_two_versions)); reflexivity.
Defined.

(** X12.  [update_cargo_version] writes line feeds only: whatever line
    boundaries the manifest had (CR LF, CR, form feed and the others
    [str.splitlines] knows), for a version without a line boundary the
    text written holds no line boundary but the line feed, and ends with
    one. *)
Theorem update_cargo_version_line_feeds (p : path) (version : str) (w w1 : world) :
  no_linebreak version = true ->
  update_cargo_version p version w = (w1, Ok tt) ->
  exists content,
    files w1 p = Some (content ++ [LF])
    /\ forallb (fun c => negb (islinebreak c) || (c =? LF)) content = true.
Proof.
  intros Hv Hrun.
  apply update_cargo_version_ok in Hrun as (text & Hf & He & ->).
  eexists. split; [apply files_write_same|].
  apply forallb_join; [reflexivity|].
  eapply Forall_impl;
    [|exact (cargo_new_lines_no_linebreak version _ Hv (cargo_lines_no_linebreak text))].
  intros l. apply forallb_impl. intros c Hc. now rewrite Hc.
Qed.

Lemma update_cargo_version_line_feeds_witness :
  exists content,
    files (fst (update_cargo_version CARGO_TOML (py "1.2.3")
                  (one_file CARGO_TOML cargo_crlf))) CARGO_TOML
    = Some (content ++ [LF])
    /\ forallb (fun c => negb (islinebreak c) || (c =? LF)) content = true.
Proof.
  apply (update_cargo_version_line_feeds CARGO_TOML (py "1.2.3")
           (one_file CARGO_TOML cargo_crlf)); reflexivity.
Defined.

(** X13.  A manifest whose lines end in line feeds, the last one
    included, is written back character for character except for the
    version lines: the text written is the same lines, each version
    line replaced, joined and ended by line feeds. *)
Theorem update_cargo_version_keeps_lines
    (p : path) (version : str) (w : world) (lines : list str) :
  forallb no_linebreak lines = true ->
  existsb (re_match version_pattern) lines = true ->
  files w p = Some (join [LF] lines ++ [LF]) ->
  exists w',
    update_cargo_version p version w = (w', Ok tt)
    /\ files w' p = Some (join [LF] (cargo_new_lines version lines) ++ [LF]).
Proof.
  intros Hl He Hf.
  assert (Forall (fun l => no_linebreak l = true) lines) as HF
    by (apply Forall_forall; now apply forallb_forall).
  assert (cargo_lines (join [LF] lines ++ [LF]) = lines) as Hlines.
  { unfold cargo_lines. rewrite universal_newlines_fixed.
    - apply splitlines_join; [|exact HF]. destruct lines; discriminate.
    - unfold no_cr. rewrite forallb_app. apply andb_true_iff. split; [|reflexivity].
      apply forallb_join; [reflexivity|].
      eapply Forall_impl; [|exact HF]. intros l. apply no_linebreak_no_cr. }
  rewrite (update_cargo_version_text _ version _ _ Hf), Hlines, He.
  eexists. split; [reflexivity|].
  unfold cargo_text. rewrite Hlines. apply files_write_same.
Qed.

Lemma update_cargo_version_keeps_lines_witness :
  exists w',
    update_cargo_version CARGO_TOML (py "1.2.3")
      (one_file CARGO_TOML
         (join [LF] [py "[package]"; pyq "version = '1.0.0'"; []; py "[features]"]
            ++ [LF]))
    = (w', Ok tt)
    /\ files w' CARGO_TOML
       = Some (join [LF]
                 (cargo_new_lines (py "1.2.3")
                    [py "[package]"; pyq "version = '1.0.0'"; []; py "[features]"])
                 ++ [LF]).
Proof.
  apply (update_cargo_version_keeps_lines CARGO_TOML (py "1.2.3")); reflexivity.
Defined.

(** ** Lines of a text file *)

Lemma readlines_from_lines (s : str) : forall cur,
  no_lf cur = true -> file_lines (readlines_from cur s).
Proof.
  induction s as [|c r IH]; intros cur Hcur; cbn [readlines_from].
  - destruct cur as [|c cur]; [constructor|]. constructor.
    + cbn [rev]. now destruct (rev cur).
    + unfold no_lf. now rewrite forallb_rev.
  - destruct (c =? LF) eqn:E.
    + apply N.eqb_eq in E. subst c. constructor; [|now apply IH].
      exists (rev cur). split; [reflexivity|]. unfold no_lf. now rewrite forallb_rev.
    + apply IH. unfold no_lf. cbn [forallb]. now rewrite E.
Qed.

Lemma readlines_lines (s : str) : file_lines (readlines s).
Proof. now apply readlines_from_lines. Qed.

Lemma readlines_from_line (s : str) : forall cur rest,
  no_lf s = true ->
  readlines_from cur (s ++ LF :: rest) = (rev cur ++ s ++ [LF]) :: readlines_from [] rest.
Proof.
  induction s as [|c s IH]; intros cur rest H.
  - cbn [app readlines_from]. change (LF =? LF) with true. cbv iota. reflexivity.
  - unfold no_lf in H. cbn [forallb] in H. apply andb_true_iff in H as [Hc Hs].
    apply negb_true_iff in Hc. cbn [app readlines_from]. rewrite Hc.
    rewrite IH by exact Hs. cbn [rev]. now rewrite <- app_assoc.
Qed.

Lemma readlines_from_last (s : str) : forall cur,
  no_lf s = true -> rev cur ++ s <> [] -> readlines_from cur s = [rev cur ++ s].
Proof.
  induction s as [|c s IH]; intros cur H Hne.
  - cbn [readlines_from]. rewrite app_nil_r in *.
    destruct cur; [now cbn in Hne|reflexivity].
  - unfold no_lf in H. cbn [forallb] in H. apply andb_true_iff in H as [Hc Hs].
    apply negb_true_iff in Hc. cbn [readlines_from]. rewrite Hc.
    rewrite IH; [|exact Hs|]; cbn [rev]; rewrite <- app_assoc; [reflexivity|].
    now destruct (rev cur).
Qed.

(** The lines of a text file, put together, read back as themselves. *)
Lemma readlines_concat (lines : list str) :
  file_lines lines -> readlines (List.concat lines) = lines.
Proof.
  unfold readlines. induction 1 as [|s Hne Hs|line rest (s & -> & Hs) Hrest IH].
  - reflexivity.
  - cbn [List.concat]. rewrite app_nil_r. now apply readlines_from_last.
  - cbn [List.concat]. rewrite <- app_assoc. cbn [app].
    rewrite readlines_from_line by exact Hs. now rewrite IH.
Qed.

Lemma file_lines_map (f : str -> str) (lines : list str) :
  (forall l, f l = l \/ terminated (f l)) ->
  file_lines lines -> file_lines (map f lines).
Proof.
  intros Hf. induction 1 as [|s Hne Hs|line rest Hline Hrest IH]; cbn [map].
  - constructor.
  - destruct (Hf s) as [->|Ht]; [now constructor|]. constructor; [exact Ht|constructor].
  - constructor; [|exact IH]. now destruct (Hf line) as [->|Ht].
Qed.

Lemma readlines_from_forall (p : char -> bool) (s : str) : forall cur,
  forallb p cur = true -> forallb p s = true ->
  Forall (fun l => forallb p l = true) (readlines_from cur s).
Proof.
  induction s as [|c r IH]; intros cur Hcur Hs; cbn [readlines_from].
  - destruct cur as [|c cur]; constructor; [|constructor]. now rewrite forallb_rev.
  - cbn [forallb] in Hs. apply andb_true_iff in Hs as [Hc Hr].
    destruct (c =? LF).
    + constructor; [|now apply IH]. rewrite forallb_rev. cbn [forallb]. now rewrite Hc.
    + apply IH; [|exact Hr]. cbn [forallb]. now rewrite Hc.
Qed.

(** ** The line [update_release_body] writes *)

Lemma leading_space_spaces (n : nat) (c : char) (r : str) :
  isspace c = false -> leading_space (spaces n ++ c :: r) = spaces n.
Proof.
  intros Hc. induction n as [|n IH]; cbn [spaces repeat app leading_space].
  - now rewrite Hc.
  - change (isspace SPACE) with true. cbv iota. f_equal. exact IH.
Qed.

Lemma lstrip_spaces (n : nat) (c : char) (r : str) :
  isspace c = false -> lstrip (spaces n ++ c :: r) = c :: r.
Proof.
  intros Hc. induction n as [|n IH]; cbn [spaces repeat app lstrip].
  - now rewrite Hc.
  - change (isspace SPACE) with true. cbv iota. exact IH.
Qed.

Lemma release_body_line_shape (body line : str) :
  exists tail,
    release_body_line body line
    = spaces (List.length (leading_space line)) ++ 0x72 :: tail
    /\ startswith (0x72 :: tail) (py "releaseBody:") = true
    /\ no_lf (spaces (List.length (leading_space line))
              ++ py "releaseBody: " ++ escape_for_yaml body) = true
    /\ no_cr (release_body_line body line) = true.
Proof.
  unfold release_body_line. eexists. split; [reflexivity|]. split; [reflexivity|].
  pose proof (encode_basestring_ascii_printable body) as Hp.
  pose proof (spaces_printable (List.length (leading_space line))) as Hs.
  split.
  - unfold no_lf. rewrite !forallb_app.
    apply andb_true_iff; split; [|apply andb_true_iff; split].
    + exact (forallb_impl _ _ _ printable_not_lf Hs).
    + reflexivity.
    + exact (forallb_impl _ _ _ printable_not_lf Hp).
  - assert (forall c, is_printable_ascii c = true -> negb (c =? CR) = true) as Hcr.
    { intros c Hc. apply negb_true_iff, N.eqb_neq. intros ->. discriminate. }
    unfold no_cr. rewrite !forallb_app.
    apply andb_true_iff; split; [|apply andb_true_iff; split; [|apply andb_true_iff; split]].
    + exact (forallb_impl _ _ _ Hcr Hs).
    + reflexivity.
    + exact (forallb_impl _ _ _ Hcr Hp).
    + reflexivity.
Qed.

(** The line written is one [update_release_body] replaces, by
    itself. *)
Lemma release_body_line_again (body line : str) :
  is_release_body_line (release_body_line body line) = true
  /\ release_body_line body (release_body_line body line) = release_body_line body line.
Proof.
  destruct (release_body_line_shape body line) as (tail & E & Hs & _).
  split.
  - unfold is_release_body_line. rewrite E, lstrip_spaces by reflexivity. exact Hs.
  - assert (leading_space (release_body_line body line)
            = spaces (List.length (leading_space line))) as Hl
      by (rewrite E; now apply leading_space_spaces).
    unfold release_body_line at 1. rewrite Hl. unfold spaces at 1 2.
    now rewrite repeat_length.
Qed.

Lemma release_body_line_terminated (body line : str) :
  terminated (release_body_line body line).
Proof.
  destruct (release_body_line_shape body line) as (tail & _ & _ & Hlf & _).
  eexists. split; [|exact Hlf]. unfold release_body_line.
  now rewrite <- !app_assoc.
Qed.

Lemma release_new_lines_again (body : str) (lines : list str) :
  release_new_lines body (release_new_lines body lines) = release_new_lines body lines
  /\ existsb is_release_body_line (release_new_lines body lines)
     = existsb is_release_body_line lines.
Proof.
  unfold release_new_lines. induction lines as [|l lines [IH1 IH2]]; [now split|].
  cbn [map existsb]. rewrite IH1, IH2.
  destruct (release_body_line_again body l) as [H1 H2].
  destruct (is_release_body_line l) eqn:E.
  - now rewrite H1, H2.
  - now rewrite E.
Qed.

(** The workflow [update_release_body] wrote reads back as the lines it
    was made of. *)
Lemma release_lines_release_text (body text : str) :
  release_lines (release_text body text) = release_new_lines body (release_lines text).
Proof.
  unfold release_lines at 1, release_text. rewrite universal_newlines_fixed.
  - apply readlines_concat. apply file_lines_map; [|apply readlines_lines].
    intros l. destruct (is_release_body_line l); [right|now left].
    apply release_body_line_terminated.
  - apply forallb_concat. unfold release_new_lines. apply Forall_map.
    eapply Forall_impl;
      [|exact (readlines_from_forall (fun c => negb (c =? CR)) _ [] eq_refl
                 (universal_newlines_no_cr text))].
    intros l Hl. cbv beta. destruct (is_release_body_line l); [|exact Hl].
    now destruct (release_body_line_shape body l) as (tail & _ & _ & _ & Hcr).
Qed.

(** [update_release_body] as a function of the text of the file. *)
Lemma update_release_body_text (p : path) (body : str) (w : world) (text : str) :
  files w p = Some text ->
  update_release_body p body w
  = if existsb is_release_body_line (release_lines text)
    then write_text p (release_text body text) w
    else (w, Raise (SystemExit [Text "Could not find releaseBody in "; Shown p])).
Proof. intros Hf. now rewrite (update_release_body_run _ _ _ _ Hf). Qed.

(** Run on the workflow it wrote, [update_release_body] writes the same
    text. *)
Lemma update_release_body_rerun (p : path) (body : str) (w : world) (text : str) :
  existsb is_release_body_line (release_lines text) = true ->
  files w p = Some (release_text body text) ->
  update_release_body p body w = write_text p (release_text body text) w.
Proof.
  intros He Hf. rewrite (update_release_body_text _ _ _ _ Hf).
  rewrite release_lines_release_text.
  destruct (release_new_lines_again body (release_lines text)) as [H1 H2].
  rewrite H2, He. unfold release_text at 1.
  rewrite release_lines_release_text. now rewrite H1.
Qed.

Lemma update_release_body_written (p : path) (body : str) (w w' : world) :
  update_release_body p body w = (w', Ok tt) ->
  exists text,
    files w p = Some text
    /\ existsb is_release_body_line (release_lines text) = true
    /\ w' = fst (write_text p (release_text body text) w).
Proof.
  destruct (files w p) as [text|] eqn:Hf.
  - rewrite (update_release_body_text _ _ _ _ Hf).
    destruct (existsb is_release_body_line (release_lines text)) eqn:E; [|discriminate].
    intros H. exists text. split; [reflexivity|]. split; [exact E|].
    now injection H as <-.
  - unfold update_release_body, bind, read_text. rewrite Hf. discriminate.
Qed.

(** X14.  [update_release_body] is idempotent: after a call that
    succeeded, a second call with the same text succeeds and leaves
    every file as the first call left it, whatever the text and the
    indentation of the key. *)
Theorem update_release_body_idempotent (p : path) (body : str) (w w1 : world) :
  update_release_body p body w = (w1, Ok tt) ->
  exists w2,
    update_release_body p body w1 = (w2, Ok tt)
    /\ forall q, files w2 q = files w1 q.
Proof.
  intros Hrun.
  apply update_release_body_written in Hrun as (text & Hf & He & ->).
  eexists. split.
  - rewrite (update_release_body_rerun p body _ text He);
      [reflexivity|apply files_write_same].
  - apply write_text_same_files, files_write_same.
Qed.

Lemma update_release_body_idempotent_witness :
  exists w2,
    update_release_body RELEASE_WORKFLOW notes_quoted
      (fst (update_release_body RELEASE_WORKFLOW notes_quoted
              (one_file RELEASE_WORKFLOW workflow_tab)))
    = (w2, Ok tt)
    /\ forall q,
         files w2 q
         = files (fst (update_release_body RELEASE_WORKFLOW notes_quoted
                         (one_file RELEASE_WORKFLOW workflow_tab))) q.
Proof.
  apply (update_release_body_idempotent RELEASE_WORKFLOW notes_quoted
           (one_file RELEASE_WORKFLOW workflow_tab)); reflexivity.
Defined.

(** ** The JSON files, read again *)



(** What [update_json_version] wrote decodes to the object bumped to
    the normalized version. *)
Lemma json_version_text_loads (text : str) (d : dict) (version : str) :
  forallb is_scalar text = true -> forallb is_code_point version = true ->
  json_loads (universal_newlines text) = Document (JDict d) ->
  json_loads (universal_newlines (json_version_text version d))
  = Document (JDict (bump_json d (normalize version))).
Proof.
  intros Ht Hv Hl. unfold json_version_text. rewrite dumps_universal_newlines.
  now apply (bumped_file_loads_normalize text).
Qed.


Lemma update_json_version_object (p : path) (version : str) (w : world) (text : str)
    (d : dict) :
  files w p = Some text ->
  json_loads (universal_newlines text) = Document (JDict d) ->
  update_json_version p version w = write_text p (json_version_text version d) w.
Proof. intros Hf Hl. now rewrite (update_json_version_run _ _ _ _ Hf), Hl. Qed.


(** Run on the file they wrote, the two JSON updates write the same
    text. *)
Lemma update_json_version_rerun (p : path) (version : str) (w : world) (text : str)
    (d : dict) :
  forallb is_scalar text = true -> forallb is_code_point version = true ->
  json_loads (universal_newlines text) = Document (JDict d) ->
  files w p = Some (json_version_text version d) ->
  update_json_version p version w = write_text p (json_version_text version d) w.
Proof.
  intros Ht Hv Hl Hf.
  rewrite (update_json_version_object p version w _ _ Hf
             (json_version_text_loads text d version Ht Hv Hl)).
  unfold json_version_text. now rewrite bump_json_again.
Qed.




(** ** The order of the keys *)









(** ** [get_current_version] *)






(** ** A run of [main], step by step *)














(** ** Each update writes its own file, or nothing *)




(** ** Running [main] again *)





(** ** [escape_for_yaml] *)

Lemma escape_char_plain (c : char) : is_plain_char c = true -> escape_char c = [c].
Proof.
  unfold is_plain_char, is_printable_ascii, escape_char. intros H.
  apply andb_true_iff in H as [H Hb]. apply andb_true_iff in H as [Hp Hq].
  apply negb_true_iff in Hb. apply negb_true_iff in Hq.
  now rewrite Hq, Hb, Hp.
Qed.

Lemma flat_map_escape_plain (s : str) :
  forallb is_plain_char s = true -> flat_map escape_char s = s.
Proof.
  induction s as [|c s IH]; [reflexivity|]. cbn [forallb flat_map].
  intros H. apply andb_true_iff in H as [Hc Hs].
  now rewrite (escape_char_plain c Hc), IH.
Qed.

(** X15.  Plain text goes through [escape_for_yaml] unchanged: for a
    text of printable ASCII characters without double quote and
    backslash, the result is that very text between two double
    quotes. *)
Theorem escape_for_yaml_plain (value : str) :
  forallb is_plain_char value = true ->
  escape_for_yaml value = QUOTE :: value ++ [QUOTE].
Proof.
  intros H. unfold escape_for_yaml, json_dumps. cbn [iterencode].
  unfold encode_basestring_ascii. now rewrite flat_map_escape_plain.
Qed.

Lemma escape_for_yaml_plain_witness :
  escape_for_yaml (py "Bug fixes and a new icon.")
  = QUOTE :: py "Bug fixes and a new icon." ++ [QUOTE].
Proof.
  apply (escape_for_yaml_plain (py "Bug fixes and a new icon.")). reflexivity.
Defined.

Lemma normalize_cons2 (c c' : char) (r : str) :
  normalize (c :: c' :: r)
  = if is_high_surrogate c && is_low_surrogate c'
    then join_surrogates c c' :: normalize r
    else c :: normalize (c' :: r).
Proof. reflexivity. Qed.

Lemma no_surrogate_pair_cons2 (c c' : char) (r : str) :
  no_surrogate_pair (c :: c' :: r)
  = negb (is_high_surrogate c && is_low_surrogate c') && no_surrogate_pair (c' :: r).
Proof. reflexivity. Qed.

(** Joining a pair shortens the text; without a pair nothing is
    joined. *)
Lemma normalize_length (n : nat) : forall s,
  (List.length s <= n)%nat ->
  (List.length (normalize s) <= List.length s)%nat
  /\ (no_surrogate_pair s = false -> (List.length (normalize s) < List.length s)%nat).
Proof.
  induction n as [|n IH]; intros s Hn.
  - destruct s; [|cbn in Hn; lia]. split; [reflexivity|discriminate].
  - destruct s as [|c [|c' r]].
    + split; [reflexivity|discriminate].
    + split; [reflexivity|]. cbn. rewrite andb_false_r. discriminate.
    + rewrite normalize_cons2, no_surrogate_pair_cons2.
      assert ((List.length r <= n)%nat) as G1 by (cbn [List.length] in Hn; lia).
      assert ((List.length (c' :: r) <= n)%nat) as G2 by (cbn [List.length] in *; lia).
      destruct (IH r G1) as [H1 _]. destruct (IH (c' :: r) G2) as [H2 H3].
      destruct (is_high_surrogate c && is_low_surrogate c').
      * change (List.length (c :: c' :: r)) with (S (S (List.length r))).
        change (List.length (join_surrogates c c' :: normalize r))
          with (S (List.length (normalize r))).
        split; [lia|]. intros _. lia.
      * change (List.length (c :: normalize (c' :: r)))
          with (S (List.length (normalize (c' :: r)))).
        change (List.length (c :: c' :: r)) with (S (List.length (c' :: r))).
        cbn [negb andb]. split; [lia|]. intros H. apply H3 in H. lia.
Qed.

(** X16.  Decoding what [escape_for_yaml] wrote gives the text with
    every high surrogate that is directly followed by a low one joined
    with it into the character the two encode; and that is the text
    itself exactly when it holds no such pair. *)
Theorem escape_for_yaml_decodes (value : str) :
  forallb is_code_point value = true ->
  json_loads (escape_for_yaml value) = Document (JStr (normalize value))
  /\ (normalize value = value <-> no_surrogate_pair value = true).
Proof.
  intros H. split; [now apply json_loads_dumps_str_normalize|]. split.
  - intros E. destruct (no_surrogate_pair value) eqn:N; [reflexivity|].
    destruct (normalize_length (List.length value) value (le_n _)) as [_ Hlt].
    specialize (Hlt N). rewrite E in Hlt. lia.
  - intros N. apply normalize_well_formed. unfold well_formed. now rewrite H, N.
Qed.

Lemma escape_for_yaml_decodes_witness :
  json_loads (escape_for_yaml [0x61; 0xD83D; 0xDE00])
  = Document (JStr (normalize [0x61; 0xD83D; 0xDE00]))
  /\ (normalize [0x61; 0xD83D; 0xDE00] = [0x61; 0xD83D; 0xDE00]
      <-> no_surrogate_pair [0x61; 0xD83D; 0xDE00] = true).
Proof.
  apply (escape_for_yaml_decodes [0x61; 0xD83D; 0xDE00]). reflexivity.
Defined.

(** ** The test server *)

Section Server.
Import BaseHTTPRequestHandler.

Lemma send_header_simple (keyword value : str) (h : handler) :
  request_version h = HTTP_0_9 ->
  request_version (send_header keyword value h) = HTTP_0_9
  /\ headers_buffer (send_header keyword value h) = headers_buffer h
  /\ wfile (send_header keyword value h) = wfile h.
Proof.
  intros Hv. unfold send_header. rewrite Hv, str_eqb_refl.
  destruct (str_eqb (lower keyword) (py "connection")); [|now repeat split].
  destruct (str_eqb (lower value) (py "close")); [now repeat split|].
  destruct (str_eqb (lower value) (py "keep-alive")); now repeat split.
Qed.

Lemma send_headers_simple (headers : list (str * str)) : forall h,
  request_version h = HTTP_0_9 ->
  request_version (fold_left (fun h kv => send_header (fst kv) (snd kv) h) headers h)
  = HTTP_0_9
  /\ headers_buffer (fold_left (fun h kv => send_header (fst kv) (snd kv) h) headers h)
     = headers_buffer h
  /\ wfile (fold_left (fun h kv => send_header (fst kv) (snd kv) h) headers h) = wfile h.
Proof.
  induction headers as [|[k v] headers IH]; intros h Hv; [now repeat split|].
  cbn [fold_left fst snd].
  destruct (send_header_simple k v h Hv) as (H1 & H2 & H3).
  destruct (IH _ H1) as (G1 & G2 & G3). now rewrite G1, G2, G3, H2, H3.
Qed.

(** The three headers of the handler are not [Connection] headers. *)
Lemma send_header_keeps_connection (keyword value : str) (h : handler) :
  str_eqb (lower keyword) (py "connection") = false ->
  close_connection (send_header keyword value h) = close_connection h
  /\ request_version (send_header keyword value h) = request_version h
  /\ (request_version h <> HTTP_0_9 ->
      headers_buffer (send_header keyword value h) <> None).
Proof.
  intros Hk. unfold send_header. rewrite Hk.
  destruct (str_eqb (request_version h) HTTP_0_9) eqn:E; [repeat split|].
  - intros Hv. apply str_eqb_eq in E. contradiction.
  - repeat split. intros _. discriminate.
Qed.

End Server.

(** X17.  A request without a protocol version (HTTP/0.9) gets the
    body and nothing else, whatever the status line, the headers and
    the body are: the handler writes no status line, no header and no
    blank line, and buffers none. *)
Theorem simple_request_bare_body
    (status_line : str) (headers : list (str * str)) (body : str)
    (h : BaseHTTPRequestHandler.handler) :
  BaseHTTPRequestHandler.request_version h = BaseHTTPRequestHandler.HTTP_0_9 ->
  exists h',
    NoCacheRequestHandler.respond status_line headers body h = Ok h'
    /\ BaseHTTPRequestHandler.wfile h' = BaseHTTPRequestHandler.wfile h ++ body
    /\ BaseHTTPRequestHandler.headers_buffer h'
       = BaseHTTPRequestHandler.headers_buffer h.
Proof.
  intros Hv. unfold NoCacheRequestHandler.respond.
  unfold BaseHTTPRequestHandler.send_response_only. rewrite Hv, str_eqb_refl.
  destruct (send_headers_simple headers h Hv) as (H1 & H2 & H3).
  set (h1 := fold_left _ headers h) in *.
  unfold NoCacheRequestHandler.end_headers.
  destruct (send_header_simple (py "Cache-Control") NoCacheRequestHandler.CACHE_CONTROL h1 H1)
    as (A1 & A2 & A3).
  set (h2 := BaseHTTPRequestHandler.send_header (py "Cache-Control") _ h1) in *.
  destruct (send_header_simple (py "Pragma") (py "no-cache") h2 A1) as (B1 & B2 & B3).
  set (h3 := BaseHTTPRequestHandler.send_header (py "Pragma") _ h2) in *.
  destruct (send_header_simple (py "Expires") (py "0") h3 B1) as (C1 & C2 & C3).
  set (h4 := BaseHTTPRequestHandler.send_header (py "Expires") _ h3) in *.
  unfold BaseHTTPRequestHandler.end_headers. rewrite C1, str_eqb_refl.
  eexists. split; [reflexivity|].
  cbn [BaseHTTPRequestHandler.write BaseHTTPRequestHandler.wfile
         BaseHTTPRequestHandler.headers_buffer].
  now rewrite C2, C3, B2, B3, A2, A3, H2, H3.
Qed.

Lemma simple_request_bare_body_witness :
  exists h',
    NoCacheRequestHandler.respond (py "HTTP/1.0 404 File not found")
      [(py "Connection", py "close"); (py "Content-Length", py "9")] (py "Not found")
      simple_request = Ok h'
    /\ BaseHTTPRequestHandler.wfile h'
       = BaseHTTPRequestHandler.wfile simple_request ++ py "Not found"
    /\ BaseHTTPRequestHandler.headers_buffer h'
       = BaseHTTPRequestHandler.headers_buffer simple_request.
Proof.
  apply (simple_request_bare_body (py "HTTP/1.0 404 File not found")
           [(py "Connection", py "close"); (py "Content-Length", py "9")]
           (py "Not found") simple_request).
  reflexivity.
Defined.

(** X18.  [end_headers] of the handler always succeeds, also on a
    response for which no header was sent before, where the method of
    the base class alone raises [AttributeError]; and the three headers
    it adds leave the connection as it was: [close_connection] and the
    request version are unchanged. *)
Theorem end_headers_always_succeeds (h : BaseHTTPRequestHandler.handler) :
  exists h',
    NoCacheRequestHandler.end_headers h = Ok h'
    /\ BaseHTTPRequestHandler.close_connection h'
       = BaseHTTPRequestHandler.close_connection h
    /\ BaseHTTPRequestHandler.request_version h'
       = BaseHTTPRequestHandler.request_version h.
Proof.
  unfold NoCacheRequestHandler.end_headers.
  destruct (send_header_keeps_connection (py "Cache-Control")
              NoCacheRequestHandler.CACHE_CONTROL h eq_refl) as (A1 & A2 & A3).
  set (h2 := BaseHTTPRequestHandler.send_header (py "Cache-Control") _ h) in *.
  destruct (send_header_keeps_connection (py "Pragma") (py "no-cache") h2 eq_refl)
    as (B1 & B2 & B3).
  set (h3 := BaseHTTPRequestHandler.send_header (py "Pragma") _ h2) in *.
  destruct (send_header_keeps_connection (py "Expires") (py "0") h3 eq_refl)
    as (C1 & C2 & C3).
  set (h4 := BaseHTTPRequestHandler.send_header (py "Expires") _ h3) in *.
  unfold BaseHTTPRequestHandler.end_headers.
  destruct (str_eqb (BaseHTTPRequestHandler.request_version h4)
              BaseHTTPRequestHandler.HTTP_0_9) eqn:E.
  - exists h4. split; [reflexivity|]. split; congruence.
  - apply str_eqb_neq in E.
    assert (BaseHTTPRequestHandler.request_version h3 <> BaseHTTPRequestHandler.HTTP_0_9)
      as E3 by congruence.
    specialize (C3 E3).
    destruct (BaseHTTPRequestHandler.headers_buffer h4) as [b|] eqn:Hb; [|congruence].
    eexists. split; [reflexivity|].
    unfold BaseHTTPRequestHandler.flush_headers, BaseHTTPRequestHandler.buffer_append.
    cbn [BaseHTTPRequestHandler.headers_buffer BaseHTTPRequestHandler.close_connection
           BaseHTTPRequestHandler.request_version].
    split; congruence.
Qed.
